(** * hot-config: a directory-based configuration loader with a hot-reloadable store

    A shallow embedding of the module [index.js] (the version that exports
    [ParserError], [filePatterns], [fileParsers], [store], [clear] and [load])
    and proofs about its store, its loader and its path conversion.

    The module is written in callback style on top of [neo-async], [lodash],
    [find], [js-yaml] and Node's [fs] and [path].  The embedding keeps the
    module's own functions as they are written and gives each library
    function it calls a model of its documented behaviour; what the host
    decides (the file system, the parsers' verdicts, the environment) is a
    field of the record [Host]. *)

From stdpp Require Import gmap strings list fin_maps pretty.
From Stdlib Require Import ZArith Ascii.

Set Warnings "-register-all".

Local Open Scope string_scope.

(** ** Strings as JavaScript uses them

    Strings are sequences of characters; the models below are those of
    [String.prototype.replace] with a string pattern, [split], [join] and
    [startsWith] on them. *)
Module Str.

(** [s.startsWith(p)] *)
Fixpoint startsWith (p s : string) : bool :=
  match p, s with
  | EmptyString, _ => true
  | String a p', String b s' => if Ascii.eqb a b then startsWith p' s' else false
  | String _ _, EmptyString => false
  end.

(** [s.slice(n)] *)
Fixpoint drop (n : nat) (s : string) : string :=
  match n, s with
  | O, _ => s
  | S n', String _ s' => drop n' s'
  | S _, EmptyString => EmptyString
  end.

(** [s.replace(pat, '')] with a string pattern: only the first occurrence
    of [pat] is removed; an empty pattern matches at index 0 and removes
    nothing. *)
Fixpoint removeFirst (pat s : string) : string :=
  if startsWith pat s then drop (String.length pat) s
  else match s with
       | EmptyString => EmptyString
       | String c s' => String c (removeFirst pat s')
       end.

(** [s.split(sep)] for a one-character separator: the (possibly empty)
    pieces between the separators; the empty string splits into one empty
    piece. *)
Fixpoint split (sep : ascii) (s : string) : list string :=
  match s with
  | EmptyString => [EmptyString]
  | String c s' =>
      if Ascii.eqb c sep then EmptyString :: split sep s'
      else match split sep s' with
           | [] => [String c EmptyString]
           | piece :: pieces => String c piece :: pieces
           end
  end.

(** [!!n] on a string: the empty string is the only falsy one. *)
Definition nonEmpty (s : string) : bool :=
  match s with EmptyString => false | _ => true end.

(** [l.join(sep)] *)
Definition join (sep : string) (l : list string) : string := String.concat sep l.

(** The character at an index, [None] out of range. *)
Definition charAt (i : nat) (s : string) : option ascii := String.get i s.

(** [pat] occurs in [s] *)
Fixpoint occurs (pat s : string) : bool :=
  if startsWith pat s then true
  else match s with
       | EmptyString => false
       | String _ s' => occurs pat s'
       end.

(** [s.indexOf(pat)]: the index of the first occurrence, [None] for -1. *)
Fixpoint indexOf (pat s : string) : option nat :=
  if startsWith pat s then Some 0
  else match s with
       | EmptyString => None
       | String _ s' => S <$> indexOf pat s'
       end.

(** the character [c] occurs in [s] *)
Fixpoint contains (c : ascii) (s : string) : bool :=
  match s with
  | EmptyString => false
  | String d s' => Ascii.eqb d c || contains c s'
  end.

End Str.

(** ** Node's [path] module (POSIX flavour) *)
Module Path.

(** [path.sep] *)
Definition sep : ascii := "/"%char.

(** The loop variables of [path.extname]. *)
Record ExtScan := {
  startDot : Z;
  startPart : Z;
  endPos : Z;
  matchedSlash : bool;
  preDotState : Z
}.

Definition extInit : ExtScan :=
  {| startDot := -1; startPart := 0; endPos := -1;
     matchedSlash := true; preDotState := 0 |}.

(** The body of [for (let i = path.length - 1; i >= 0; --i)], run from
    index [n - 1] down to 0; the [break] returns the state. *)
Fixpoint extLoop (path : string) (n : nat) (s : ExtScan) : ExtScan :=
  match n with
  | O => s
  | S i =>
      let code := default "000"%char (Str.charAt i path) in
      if Ascii.eqb code "/"%char then
        if negb (matchedSlash s) then
          {| startDot := startDot s; startPart := Z.of_nat i + 1;
             endPos := endPos s; matchedSlash := matchedSlash s;
             preDotState := preDotState s |}
        else extLoop path i s
      else
        let s1 :=
          if (endPos s =? -1)%Z then
            {| startDot := startDot s; startPart := startPart s;
               endPos := Z.of_nat i + 1; matchedSlash := false;
               preDotState := preDotState s |}
          else s in
        let s2 :=
          if Ascii.eqb code "."%char then
            if (startDot s1 =? -1)%Z then
              {| startDot := Z.of_nat i; startPart := startPart s1;
                 endPos := endPos s1; matchedSlash := matchedSlash s1;
                 preDotState := preDotState s1 |}
            else if negb (preDotState s1 =? 1)%Z then
              {| startDot := startDot s1; startPart := startPart s1;
                 endPos := endPos s1; matchedSlash := matchedSlash s1;
                 preDotState := 1 |}
            else s1
          else if negb (startDot s1 =? -1)%Z then
            {| startDot := startDot s1; startPart := startPart s1;
               endPos := endPos s1; matchedSlash := matchedSlash s1;
               preDotState := -1 |}
          else s1 in
        extLoop path i s2
  end.

(** [path.extname(path)]: the text from the last dot of the last path
    component to its end, empty when there is no dot, when the dot starts
    the component, or when the component is [..]. *)
Definition extname (path : string) : string :=
  let s := extLoop path (String.length path) extInit in
  if ((startDot s =? -1) || (endPos s =? -1) || (preDotState s =? 0)
      || ((preDotState s =? 1) && (startDot s =? endPos s - 1)
          && (startDot s =? startPart s + 1)))%Z
  then EmptyString
  else String.substring (Z.to_nat (startDot s))
                        (Z.to_nat (endPos s - startDot s)) path.

End Path.

(** ** JavaScript values

    The values a parser can hand over and the store can hold.  An object is
    its own enumerable properties together with the flag that tells an array
    (whose properties are its indices, in decimal) from a plain object; two
    trees are deep-equal exactly when they are equal.  Numbers are only
    copied and compared, never computed on.  Property names are ordinary
    names: inherited properties, the non-enumerable [length] and the special
    treatment some lodash versions give to [__proto__], [constructor] and
    [prototype] are outside the model.  The predicate [ordinaryName] below
    tells the names for which the models of [_.set] and [_.merge] are those
    of lodash; what is stated about the contents of a tree is stated for
    such names. *)
Inductive JsVal :=
| VUndef
| VNull
| VBool (b : bool)
| VNum (n : Z)
| VStr (s : string)
| VObj (isArr : bool) (props : gmap string JsVal).

Abbreviation Obj := (gmap string JsVal).



(** [!!v] *)
Definition truthy (v : JsVal) : bool :=
  match v with
  | VUndef | VNull => false
  | VBool b => b
  | VNum n => negb (n =? 0)%Z
  | VStr s => Str.nonEmpty s
  | VObj _ _ => true
  end.

(** The own enumerable properties of a string: its characters by index. *)
Definition strProps (s : string) : Obj :=
  list_to_map (imap (fun i c => (pretty i, VStr (String c EmptyString)))
                    (String.list_ascii_of_string s)).

(** [v[key]] for a value other than [undefined] and [null]. *)
Definition getProp (v : JsVal) (key : string) : JsVal :=
  match v with
  | VObj _ props => default VUndef (props !! key)
  | VStr s => default VUndef (strProps s !! key)
  | _ => VUndef
  end.

(** A property key that is [undefined] is the name ["undefined"]. *)
Definition propName (key : option string) : string := default "undefined" key.

(** The array literal [[v0, v1, ...]] *)
Definition arrayOf (l : list JsVal) : JsVal :=
  VObj true (list_to_map (imap (fun i v => (pretty i, v)) l)).

(** The object literal [{k0: v0, k1: v1, ...}] (a later duplicate key wins) *)
Definition objectOf (l : list (string * JsVal)) : JsVal :=
  VObj false (list_to_map (reverse l)).

(** ** Errors *)
Inductive JsError :=
| Failure (text : string)        (* any other error; [text] is what its toString() gives *)
| ParserError (message : string) (* an instance of the module's class ParserError *).

Definition toString (e : JsError) : string :=
  match e with
  | Failure text => text
  | ParserError message => "Error: " +:+ message
  end.

Definition dquote : string := String "034"%char EmptyString.

(** [new ParserError(error, file)]: the message is
    [`${error.toString()} in "${file}"`]. *)
Definition newParserError (error : JsError) (file : string) : JsError :=
  ParserError (toString error +:+ " in " +:+ dquote +:+ file +:+ dquote).

(** ** lodash *)
Module Lodash.

(** *** [_.camelCase] on ASCII text

    Words are maximal runs of letters or of digits; a lower-case letter
    followed by a capital starts a new word, and so does the last capital
    of a run of capitals that a lower-case letter follows.  Every other
    character separates words, except the apostrophe, which is removed
    before the words are taken.  Words are lower-cased and all but the first
    capitalised.  English ordinals ([1st], [2nd]) and characters outside
    ASCII are outside this model. *)
Inductive CharClass := Upper | Lower | Digit | Break.

Definition classify (c : ascii) : CharClass :=
  let n := nat_of_ascii c in
  if (65 <=? n)%nat && (n <=? 90)%nat then Upper
  else if (97 <=? n)%nat && (n <=? 122)%nat then Lower
  else if (48 <=? n)%nat && (n <=? 57)%nat then Digit
  else Break.

Definition toLower (c : ascii) : ascii :=
  match classify c with Upper => ascii_of_nat (nat_of_ascii c + 32) | _ => c end.

Definition toUpper (c : ascii) : ascii :=
  match classify c with Lower => ascii_of_nat (nat_of_ascii c - 32) | _ => c end.

(** Is there a word boundary between [p] and [c], given the character
    [nxt] after [c]? *)
Definition boundary (p c : ascii) (nxt : option ascii) : bool :=
  match classify p, classify c with
  | Lower, Lower | Digit, Digit | Upper, Lower => false
  | Upper, Upper =>
      match nxt with
      | Some n => match classify n with Lower => true | _ => false end
      | None => false
      end
  | _, _ => true
  end.

Definition flush (cur : list ascii) : list (list ascii) :=
  match cur with [] => [] | _ => [rev cur] end.

(** [cur] is the word being read, last character first. *)
Fixpoint wordsFrom (cs cur : list ascii) : list (list ascii) :=
  match cs with
  | [] => flush cur
  | c :: rest =>
      match classify c with
      | Break => flush cur ++ wordsFrom rest []
      | _ =>
          match cur with
          | p :: _ =>
              if boundary p c (head rest)
              then flush cur ++ wordsFrom rest [c]
              else wordsFrom rest (c :: cur)
          | [] => wordsFrom rest [c]
          end
      end
  end.

Definition words (s : string) : list (list ascii) :=
  wordsFrom (String.list_ascii_of_string s) [].

Definition capitalize (w : list ascii) : list ascii :=
  match w with [] => [] | c :: w' => toUpper c :: w' end.

(** [string.replace(reApos, '')] *)
Definition withoutApostrophes (s : string) : string :=
  String.string_of_list_ascii
    (List.filter (fun c => negb (Ascii.eqb c "'"%char)) (String.list_ascii_of_string s)).

Definition camelCase (s : string) : string :=
  String.string_of_list_ascii
    (List.concat (imap (fun i w =>
                     let w := map toLower w in
                     match i with O => w | _ => capitalize w end)
                  (words (withoutApostrophes s)))).

(** *** [_.merge]

    [baseMerge(object, source)] visits the own enumerable properties of
    [source].  A source property that is an array or a plain object is
    merged recursively into the destination property ([baseMergeDeep]): an
    array source merges into the destination when that is an array and
    into a new [[]] otherwise; a plain-object source merges into the
    destination when that is any object and into a new [{}] otherwise.
    Any other source property is assigned ([assignMergeValue]), except that
    [undefined] never replaces a property the destination has.  A source
    key [length] met with an array destination is assigned here like any
    key; lodash assigns the array's length there, which truncates the array
    or throws a RangeError.  The model is that of lodash on sources whose
    keys are ordinary names. *)
Fixpoint baseMerge (source : JsVal) (object : Obj) {struct source} : Obj :=
  match source with
  | VObj _ props =>
      map_fold
        (fun key srcValue (object : Obj) =>
           match srcValue with
           | VObj srcArr _ =>
               let newValue :=
                 match default VUndef (object !! key) with
                 | VObj objArr objProps =>
                     if srcArr && negb objArr then (true, ∅)
                     else (objArr, objProps)
                 | _ => (srcArr, ∅)
                 end in
               <[key := VObj newValue.1 (baseMerge srcValue newValue.2)]> object
           | VUndef =>
               match object !! key with
               | Some _ => object
               | None => <[key := VUndef]> object
               end
           | _ => <[key := srcValue]> object
           end)
        object props
  | VStr s => strProps s ∪ object
  | _ => object
  end.


(** One source of [_.merge(object, ...sources)]: a falsy source is
    skipped. *)
Definition mergeSource (object : Obj) (source : JsVal) : Obj :=
  if truthy source then baseMerge source object else object.

(** [_.merge({}, ...sources)]; the result is the destination object. *)
Definition merge (object : Obj) (sources : list JsVal) : JsVal :=
  VObj false (foldl mergeSource object sources).

(** *** [_.set]

    [isIndex]: a decimal numeral without leading zero, below
    [Number.MAX_SAFE_INTEGER]. *)
Definition isDigit (c : ascii) : bool :=
  match classify c with Digit => true | _ => false end.

Definition numeral (cs : list ascii) : N :=
  foldl (fun acc c => (10 * acc + (N_of_ascii c - 48))%N) 0%N cs.

Definition isIndex (key : string) : bool :=
  match String.list_ascii_of_string key with
  | [] => false
  | c :: cs =>
      forallb isDigit (c :: cs)
      && (negb (Ascii.eqb c "0"%char) || match cs with [] => true | _ => false end)
      && (numeral (c :: cs) <? 9007199254740991)%N
  end.

(** [castPath] of a dotted path whose segments hold no dot and no
    bracket: the segments.  (In a path with brackets lodash reads [a[0]] as
    the two keys [a] and [0].) *)
Definition castPath (path : string) : list string := Str.split "."%char path.

(** [baseSet]: walk the path, keeping an intermediate value that is an
    object and replacing any other by a new [[]] (when the next key is an
    index) or [{}]; assign the value at the last key.  Every key is
    assigned as an ordinary one and nothing throws; lodash stops at a key
    [__proto__], [constructor] or [prototype] without assigning, and
    assigning the key [length] of an array sets the array's length, which
    throws a RangeError for a value that is no length.  The model is that
    of lodash on paths of ordinary names. *)
Fixpoint baseSet (path : list string) (value : JsVal) (nested : Obj) : Obj :=
  match path with
  | [] => nested
  | [key] => <[key := value]> nested
  | key :: (next :: _) as rest =>
      let newValue :=
        match default VUndef (nested !! key) with
        | VObj objArr objProps => (objArr, objProps)
        | _ => (isIndex next, ∅)
        end in
      <[key := VObj newValue.1 (baseSet rest value newValue.2)]> nested
  end.

(** What [baseSet] leaves at the first key of a path, given what was
    there: the value itself when the path ends, else the object there (or a
    new one) with the rest of the path assigned in it. *)
Definition nodeAt (rest : list string) (value : JsVal) (objValue : option JsVal) : JsVal :=
  match rest with
  | [] => value
  | next :: _ =>
      let newValue :=
        match default VUndef objValue with
        | VObj objArr objProps => (objArr, objProps)
        | _ => (isIndex next, ∅)
        end in
      VObj newValue.1 (baseSet rest value newValue.2)
  end.

(** [_.set(object, path, value)] on the properties of [object]. *)
Definition set (object : Obj) (path : string) (value : JsVal) : Obj :=
  baseSet (castPath path) value object.

(** [_.keys(object)] *)
Definition keys (object : Obj) : list string := (map_to_list object).*1.

End Lodash.

(** ** The host

    What the module asks of its surroundings.  [find_file pattern dir] is
    the outcome of [find.file]: the files it hands to its callback, or the
    failure it raises (the callback receives files only).  [readFile],
    [yaml_load] and [JSON_parse] give either the failure or the result. *)
Record Host := {
  NODE_ENV : option string;       (* process.env.NODE_ENV *)
  dirname : string;               (* __dirname *)
  isAbsolute : string -> bool;    (* path.isAbsolute *)
  resolve : string -> string -> string;   (* path.resolve *)
  relative : string -> string -> string;  (* path.relative *)
  find_file : string -> string -> JsError + list string;
  readFile : string -> string -> JsError + string;
  yaml_load : string -> JsError + JsVal;
  JSON_parse : string -> JsError + JsVal;
  camelCase : string -> string    (* _.camelCase *)
}.

(** ** Callbacks

    What a task of [async.waterfall] does with its continuation: it passes a
    value on, it reports an error, or it throws. *)
Inductive Step (A : Type) : Type :=
| Next (a : A)        (* next(null, a) *)
| Abort (e : JsError) (* next(e) *)
| Raise (e : JsError) (* throw e *).
Arguments Next {A} a.
Arguments Abort {A} e.
Arguments Raise {A} e.

(** References to heap objects. *)
Abbreviation loc := positive.

(** The module's state: the object [store] is bound to, and the top-level
    objects allocated so far with their properties. *)
Record State := {
  store : loc;
  heap : gmap loc Obj
}.

(** A task is a state transformer that ends in a [Step]. *)
Definition Task (A : Type) : Type := State -> Step A * State.

Definition ret {A} (a : A) : Task A := fun st => (Next a, st).
Definition lift {A} (s : Step A) : Task A := fun st => (s, st).

(** [async.waterfall]: each task receives what the previous one passed on;
    the first error or exception ends the sequence. *)
Definition bind {A B} (t : Task A) (k : A -> Task B) : Task B :=
  fun st =>
    match t st with
    | (Next a, st') => k a st'
    | (Abort e, st') => (Abort e, st')
    | (Raise e, st') => (Raise e, st')
    end.

Notation "'do' x <- t ; k" := (bind t (fun x => k))
  (at level 10, x name, t at level 100, k at level 200).

(** [async.map(l, f, next)] and [_.map(l, f)]: the results in the order of
    [l], or the first error or exception.  Concurrent completions are taken
    in the order of [l]; [async.map] hands over the failure that completes
    first in time, which is the failure of one of the elements of [l]. *)
Fixpoint mapStep {A B} (f : A -> Step B) (l : list A) : Step (list B) :=
  match l with
  | [] => Next []
  | a :: l' =>
      match f a with
      | Next b =>
          match mapStep f l' with
          | Next bs => Next (b :: bs)
          | Abort e => Abort e
          | Raise e => Raise e
          end
      | Abort e => Abort e
      | Raise e => Raise e
      end
  end.

(** What the caller of [load] observes: its callback invoked with
    [(error, resultTree)], or an exception that no callback receives.  An
    exception thrown by a task unwinds into whoever invoked the task's
    continuation (the parser that called back last, or [find]); [load] has
    no handler that routes it to [done], and what those callers do with it
    is not followed further: [Uncaught e] records the exception [e] as the
    task threw it, which need not be the one that finally escapes (a
    built-in parser catches it and calls [done] again, and neo-async then
    throws its own error for the second call). *)
Inductive Outcome :=
| Callback (error : option JsError) (resultTree : option loc)
| Uncaught (e : JsError).

(** [async.waterfall(tasks, done)] hands the end of the sequence to [done]. *)
Definition finish (s : Step loc) : Outcome :=
  match s with
  | Next r => Callback None (Some r)
  | Abort e => Callback (Some e) None
  | Raise e => Uncaught e
  end.

(** ** The module *)

(** A file parser [(file, encoding, done)]: what it passes to [done]. *)
Definition Parser : Type := string -> string -> JsError + JsVal.

(** [parseYAML]: read the file, then parse; a read error goes to [done] as
    it is, a parse failure as a [ParserError]. *)
Definition parseYAML (h : Host) : Parser :=
  fun file encoding =>
    match readFile h file encoding with
    | inl err => inl err
    | inr data =>
        match yaml_load h data with
        | inr value => inr value
        | inl err => inl (newParserError err file)
        end
    end.

(** [parseJSON] *)
Definition parseJSON (h : Host) : Parser :=
  fun file encoding =>
    match readFile h file encoding with
    | inl err => inl err
    | inr data =>
        match JSON_parse h data with
        | inr value => inr value
        | inl err => inl (newParserError err file)
        end
    end.

(** [filePatterns], by the source text of the regular expression. *)
Definition filePatterns_yaml : string := "^.*\.(yaml|yml)$".
Definition filePatterns_json : string := "^.*\.(json)$".

(** The properties of the object at [l]. *)
Definition contents (st : State) (l : loc) : Obj := default ∅ (heap st !! l).

(** [delete object[key]] on the object at [l]. *)
Definition deleteKey (l : loc) (key : string) (st : State) : State :=
  {| store := store st;
     heap := <[l := delete key (contents st l)]> (heap st) |}.

(** [clear]: delete every key of the store. *)
Definition clear (st : State) : State :=
  foldl (fun st key => deleteKey (store st) key st) st
        (Lodash.keys (contents st (store st))).

(** The options object handed to [load]; an absent option is [None]. *)
Record Options := {
  filePattern : option string;
  fileEncoding : option string;
  fileParser : option Parser;
  pathNormalizer : option (string -> string);
  defaultProfile : option string;
  profile : option string;
  dryRun : option bool
}.

(** [load(dir, done)]: no options. *)
Definition noOptions : Options :=
  {| filePattern := None; fileEncoding := None; fileParser := None;
     pathNormalizer := None; defaultProfile := None; profile := None;
     dryRun := None |}.

(** The options after [_.defaults({}, opts, {...})]: every absent option
    that has a default has taken it.  [pathNormalizer] has no default here,
    and [profile] stays absent when [NODE_ENV] is. *)
Record Resolved := {
  r_filePattern : string;
  r_fileEncoding : string;
  r_fileParser : Parser;
  r_pathNormalizer : option (string -> string);
  r_defaultProfile : string;
  r_profile : option string;
  r_dryRun : bool
}.

Definition defaults (h : Host) (opts : Options) : Resolved :=
  {| r_filePattern := default filePatterns_yaml (filePattern opts);
     r_fileEncoding := default "utf8" (fileEncoding opts);
     r_fileParser := default (parseYAML h) (fileParser opts);
     r_pathNormalizer := pathNormalizer opts;
     r_defaultProfile := default "default" (defaultProfile opts);
     r_profile := match profile opts with Some p => Some p | None => NODE_ENV h end;
     r_dryRun := default false (dryRun opts) |}.

(** The options object of [toDotPath]. *)
Record DotPathOptions := { dp_pathNormalizer : option (string -> string) }.

(** [toDotPath(filepath, opts)]: drop the extension, split at the
    separator, drop empty names, normalise each name, join with dots. *)
Definition toDotPath (h : Host) (filepath : string) (opts : option DotPathOptions) : string :=
  let pathNormalizer :=
    default (camelCase h) (opts ≫= dp_pathNormalizer) in
  let ext := Path.extname filepath in
  Str.join "."
    (map pathNormalizer
       (filter (fun n => Is_true (Str.nonEmpty n))
          (Str.split Path.sep (Str.removeFirst ext filepath)))).

(** [path.relative(from, to, extra)]: [path.relative] takes two arguments
    and ignores a third. *)
Definition relative3 (h : Host) (from to : string) (extra : DotPathOptions) : string :=
  relative h from to.

(** A loaded file as [loadFile] passes it on: [value && {path, value}] is
    the falsy value itself or the entry. *)
Record Config := { path : string; value : JsVal }.

Inductive Loaded :=
| Falsy (v : JsVal)
| Entry (config : Config).

(** [loadFile]; the options object for [toDotPath] is written inside the
    call of [path.relative], so [toDotPath] receives one argument. *)
Definition loadFile (h : Host) (dir : string) (opts : Resolved) (file : string) : Step Loaded :=
  match r_fileParser opts file (r_fileEncoding opts) with
  | inl err => Abort err
  | inr value =>
      Next (if truthy value
            then Entry {| path := toDotPath h
                                    (relative3 h dir file
                                       {| dp_pathNormalizer := r_pathNormalizer opts |})
                                    None;
                          value := value |}
            else Falsy value)
  end.

(** [listDir]: the callback given to [find.file] takes the files and calls
    [done(null, files)]; nothing is registered for a failure of the
    search, which is raised where no callback receives it. *)
Definition listDir (h : Host) (dir : string) (filePattern : string) : Step (list string) :=
  match find_file h filePattern dir with
  | inr files => Next files
  | inl e => Raise e
  end.

(** The third task of [load], on one entry: the value becomes
    [_.merge({}, value[defaultProfile], value[profile])]. *)
Definition solveEntry (opts : Resolved) (config : Config) : Config :=
  let defaultValue := getProp (value config) (r_defaultProfile opts) in
  let specificValue := getProp (value config) (propName (r_profile opts)) in
  {| path := path config;
     value := Lodash.merge ∅ [defaultValue; specificValue] |}.

(** Reading [config.value[...]] off a falsy [config] throws a TypeError
    (the text is that of the engine; abbreviated here). *)
Definition typeError : JsError := Failure "TypeError: Cannot read property of undefined".

Definition solve (opts : Resolved) (config : Loaded) : Step Config :=
  match config with
  | Entry c => Next (solveEntry opts c)
  | Falsy _ => Raise typeError
  end.

(** [_.set(target, config.path, config.value)] on the object at [l]. *)
Definition setAt (l : loc) (config : Config) (st : State) : State :=
  {| store := store st;
     heap := <[l := Lodash.set (contents st l) (path config) (value config)]> (heap st) |}.

(** [const testStore = {}]: a new object, at a reference not in use. *)
Definition newObject (st : State) : loc * State :=
  let l := fresh ({[store st]} ∪ dom (heap st)) in
  (l, {| store := store st; heap := <[l := ∅]> (heap st) |}).

(** The fourth task of [load].  Every assignment of the model succeeds;
    where lodash throws (see [baseSet]) the task stops there, for a real
    load after [clear()] and the assignments done so far, and no callback
    is invoked. *)
Definition commit (opts : Resolved) (configs : list Config) : Task loc :=
  fun st =>
    if r_dryRun opts then
      let '(testStore, st1) := newObject st in
      (Next testStore, foldl (fun st config => setAt testStore config st) st1 configs)
    else
      let st1 := clear st in
      (Next (store st1), foldl (fun st config => setAt (store st) config st) st1 configs).

(** The assignments of the fourth task,
    [_.forEach(configs, config => _.set(target, config.path, config.value))],
    as a function of the properties of [target]. *)
Definition applyBatch (configs : list Config) (target : Obj) : Obj :=
  foldl (fun target config => Lodash.set target (path config) (value config)) target configs.

(** Reading [object.k1.k2...] through objects: the value at the end of the
    path when every value on the way is an object with the next key, [None]
    otherwise.  Where it gives a value, property access gives that value. *)
Fixpoint getPath (path : list string) (object : Obj) : option JsVal :=
  match path with
  | [] => None
  | [key] => object !! key
  | key :: rest =>
      match object !! key with
      | Some (VObj _ props) => getPath rest props
      | _ => None
      end
  end.

(** [p] is a prefix of [q], segment by segment. *)
Fixpoint isPrefix (p q : list string) : bool :=
  match p, q with
  | [], _ => true
  | a :: p', b :: q' => String.eqb a b && isPrefix p' q'
  | _ :: _, [] => false
  end.

(** Neither path leads through the other. *)
Definition disjointPaths (p q : list string) : bool :=
  negb (isPrefix p q) && negb (isPrefix q p).

(** Every two paths of the list are disjoint. *)
Fixpoint pairwiseDisjoint (paths : list (list string)) : bool :=
  match paths with
  | [] => true
  | p :: rest => forallb (disjointPaths p) rest && pairwiseDisjoint rest
  end.

(** The names that [_.set] does not treat as the name of a plain own
    property: the three keys it ignores, the [length] of an array, and the
    names that an object or an array inherits from its prototype (where
    [_.set] walks into the inherited function). *)
Definition reservedNames : list string :=
  ["__proto__"; "constructor"; "prototype"; "length";
   "toString"; "toLocaleString"; "valueOf"; "hasOwnProperty"; "isPrototypeOf";
   "propertyIsEnumerable"; "__defineGetter__"; "__defineSetter__";
   "__lookupGetter__"; "__lookupSetter__";
   "at"; "concat"; "copyWithin"; "entries"; "every"; "fill"; "filter"; "find";
   "findIndex"; "findLast"; "findLastIndex"; "flat"; "flatMap"; "forEach";
   "includes"; "indexOf"; "join"; "keys"; "lastIndexOf"; "map"; "pop"; "push";
   "reduce"; "reduceRight"; "reverse"; "shift"; "slice"; "some"; "sort";
   "splice"; "toReversed"; "toSorted"; "toSpliced"; "unshift"; "values"; "with"].

(** An ordinary name: not a reserved one, and without the brackets that
    are path syntax for [_.set]. *)
Definition ordinaryName (key : string) : bool :=
  negb (bool_decide (key ∈ reservedNames))
  && negb (Str.contains "["%char key) && negb (Str.contains "]"%char key).

(** A path of ordinary names. *)
Definition ordinaryPath (p : list string) : bool := forallb ordinaryName p.

(** No name after the first is an array index, so that [_.set] creates
    plain objects only. *)
Definition plainNames (p : list string) : bool :=
  forallb (fun key => negb (Lodash.isIndex key)) (tail p).

(** The segments of an entry's dotted path. *)
Definition segments (config : Config) : list string := Lodash.castPath (path config).

(** The names of a relative path that [toDotPath] normalises: the
    non-empty names of the path without the first occurrence of its
    extension. *)
Definition namesOf (filepath : string) : list string :=
  filter (fun n => Is_true (Str.nonEmpty n))
    (Str.split Path.sep (Str.removeFirst (Path.extname filepath) filepath)).

(** The first three tasks of [load], which leave the state alone: the
    entries they pass to the fourth. *)
Definition entries (h : Host) (dir : string) (options : Options) : Step (list Config) :=
  let opts := defaults h options in
  let dir := if isAbsolute h dir then dir else resolve h (dirname h) dir in
  match listDir h dir (r_filePattern opts) with
  | Next files =>
      match mapStep (loadFile h dir opts) files with
      | Next configs => mapStep (solve opts) configs
      | Abort e => Abort e
      | Raise e => Raise e
      end
  | Abort e => Abort e
  | Raise e => Raise e
  end.

(** The directory [load] searches. *)
Definition rootOf (h : Host) (dir : string) : string :=
  if isAbsolute h dir then dir else resolve h (dirname h) dir.

(** [load(dir, opts, done)] *)
Definition load (h : Host) (dir : string) (options : Options) (st : State) : Outcome * State :=
  let opts := defaults h options in
  let dir := if isAbsolute h dir then dir else resolve h (dirname h) dir in
  let '(s, st') :=
    (do files <- lift (listDir h dir (r_filePattern opts));
     do configs <- lift (mapStep (loadFile h dir opts) files);
     do configs <- lift (mapStep (solve opts) configs);
     commit opts configs) st in
  (finish s, st').

(** The state when the module has been loaded: [const store = {}]. *)
Definition initial : State := {| store := 1%positive; heap := {[1%positive := ∅]} |}.

(** The calls a client can make on the module, and a run of them. *)
Inductive Call :=
| CallClear
| CallLoad (h : Host) (dir : string) (options : Options).

Definition exec (c : Call) (st : State) : State :=
  match c with
  | CallClear => clear st
  | CallLoad h dir options => (load h dir options st).2
  end.

Definition run (calls : list Call) (st : State) : State := foldl (fun st c => exec c st) st calls.

(** ** The earlier module

    [src/index.js], the version before [ParserError], [pathNormalizer] and
    [dryRun]: a parser takes the text of a file, the read function and the
    search are options, a dotted path is made of the names as they are, and
    the callback of [load] receives no tree. *)
Module Earlier.

(** A parser [(data, done)]: what it passes to [done]. *)
Definition DataParser : Type := string -> JsError + JsVal.

(** [parsers.yaml] and [parsers.json]: the decoder's value, or its failure
    as it is. *)
Definition parsers_yaml (h : Host) : DataParser :=
  fun data =>
    match yaml_load h data with
    | inr value => inr value
    | inl err => inl err
    end.

Definition parsers_json (h : Host) : DataParser :=
  fun data =>
    match JSON_parse h data with
    | inr value => inr value
    | inl err => inl err
    end.

(** The options object handed to [load]. *)
Record Options := {
  pattern : option string;
  encoding : option string;
  parser : option DataParser;
  defenv : option string;
  listdir : option (string -> string -> JsError + list string);   (* __listdir *)
  readfile : option (string -> string -> JsError + string);       (* __readfile *)
  env : option string                                             (* __env *)
}.

Definition noOptions : Options :=
  {| pattern := None; encoding := None; parser := None; defenv := None;
     listdir := None; readfile := None; env := None |}.

(** The options after [_.defaults({}, opts, defopts)].  [defopts] is
    built once, when the module is loaded: its [__env] is
    [process.env.NODE_ENV] as it was then, [loadedEnv] below. *)
Record Resolved := {
  r_pattern : string;
  r_encoding : string;
  r_parser : DataParser;
  r_defenv : string;
  r_listdir : string -> string -> JsError + list string;
  r_readfile : string -> string -> JsError + string;
  r_env : option string
}.

Definition defaults (h : Host) (loadedEnv : option string) (opts : Options) : Resolved :=
  {| r_pattern := default filePatterns_yaml (pattern opts);
     r_encoding := default "utf8" (encoding opts);
     r_parser := default (parsers_yaml h) (parser opts);
     r_defenv := default "default" (defenv opts);
     r_listdir := default (find_file h) (listdir opts);
     r_readfile := default (readFile h) (readfile opts);
     r_env := match env opts with Some e => Some e | None => loadedEnv end |}.

(** [findFiles] *)
Definition findFiles (opts : Resolved) (dir : string) : Step (list string) :=
  match r_listdir opts (r_pattern opts) dir with
  | inr files => Next files
  | inl e => Raise e
  end.

(** [parsePath]: the path relative to the directory, without its
    extension, its non-empty names joined with dots. *)
Definition parsePath (h : Host) (dir file : string) : string :=
  let file := relative h dir file in
  let file := Str.removeFirst (Path.extname file) file in
  Str.join "." (filter (fun n => Is_true (Str.nonEmpty n)) (Str.split Path.sep file)).

(** [parseFile]: read, then parse. *)
Definition parseFile (opts : Resolved) (file : string) : Step JsVal :=
  match r_readfile opts file (r_encoding opts) with
  | inl err => Abort err
  | inr data =>
      match r_parser opts data with
      | inl err => Abort err
      | inr value => Next value
      end
  end.

(** [parse]: [async.parallel({path, value})]. *)
Definition parse (h : Host) (dir : string) (opts : Resolved) (file : string) : Step Config :=
  match parseFile opts file with
  | Next value => Next {| path := parsePath h dir file; value := value |}
  | Abort e => Abort e
  | Raise e => Raise e
  end.

(** [parseFiles] *)
Definition parseFiles (h : Host) (dir : string) (opts : Resolved) (files : list string)
  : Step (list Config) :=
  match files with
  | [] => Next []
  | _ => mapStep (parse h dir opts) files
  end.

(** [solve]: reading a property off [undefined] or [null] throws. *)
Definition solve (opts : Resolved) (config : Config) : Step Config :=
  match value config with
  | VUndef | VNull => Raise typeError
  | v =>
      Next {| path := path config;
              value := Lodash.merge ∅ [getProp v (r_defenv opts);
                                       getProp v (propName (r_env opts))] |}
  end.

(** [updateStore]: clear, assign every entry, call [next(null)].  As for
    the fourth task of the current [load], every assignment of the model
    succeeds. *)
Definition updateStore (configs : list Config) : Task unit :=
  fun st =>
    let st1 := clear st in
    (Next tt, foldl (fun st config => setAt (store st) config st) st1 configs).

(** [done] receives the error, or nothing. *)
Definition finish (s : Step unit) : Outcome :=
  match s with
  | Next _ => Callback None None
  | Abort e => Callback (Some e) None
  | Raise e => Uncaught e
  end.

(** [load(dir, opts, done)] *)
Definition load (h : Host) (loadedEnv : option string) (dir : string) (options : Options)
           (st : State) : Outcome * State :=
  let dir := resolve h (dirname h) dir in
  let opts := defaults h loadedEnv options in
  let '(s, st') :=
    (do files <- lift (findFiles opts dir);
     do configs <- lift (parseFiles h dir opts files);
     do configs <- lift (mapStep (solve opts) configs);
     updateStore configs) st in
  (finish s, st').

(** The first three tasks of [load]. *)
Definition entries (h : Host) (loadedEnv : option string) (dir : string) (options : Options)
  : Step (list Config) :=
  let dir := resolve h (dirname h) dir in
  let opts := defaults h loadedEnv options in
  match findFiles opts dir with
  | Next files =>
      match parseFiles h dir opts files with
      | Next configs => mapStep (solve opts) configs
      | Abort e => Abort e
      | Raise e => Raise e
      end
  | Abort e => Abort e
  | Raise e => Raise e
  end.

End Earlier.

(** ** A small host to run the module on

    A directory tree given as a list of files with their text, a parser
    given as the table of the documents it accepts, and the simplest path
    functions: enough to evaluate [load] on concrete directories. *)
Module Demo.

Definition lookupAssoc {A} (key : string) (table : list (string * A)) : option A :=
  snd <$> List.find (fun kv => String.eqb (fst kv) key) table.

Definition parseWith (docs : list (string * JsVal)) (what : string) (data : string)
  : JsError + JsVal :=
  match lookupAssoc data docs with
  | Some v => inr v
  | None => inl (Failure (what +:+ ": cannot parse"))
  end.

(** The search ignores the pattern: every file below the directory
    qualifies; a directory without files does not exist. *)
Definition host (env : option string) (files : list (string * string))
           (docs : list (string * JsVal)) : Host :=
  {| NODE_ENV := env;
     dirname := "/app/node_modules/hot-config/src";
     isAbsolute := Str.startsWith "/";
     resolve := fun from to => from +:+ "/" +:+ to;
     relative := fun from to =>
       if Str.startsWith (from +:+ "/") to
       then Str.drop (String.length from + 1) to else to;
     find_file := fun pattern dir =>
       if bool_decide (Exists (fun f => Is_true (Str.startsWith (dir +:+ "/") f.1)) files)
       then inr (filter (fun f => Is_true (Str.startsWith (dir +:+ "/") f)) files.*1)
       else inl (Failure ("Error: " +:+ dir +:+ " does not exist."));
     readFile := fun file encoding =>
       match lookupAssoc file files with
       | Some data => inr data
       | None => inl (Failure ("Error: ENOENT: no such file or directory, open " +:+ file))
       end;
     yaml_load := parseWith docs "YAMLException";
     JSON_parse := parseWith docs "SyntaxError";
     camelCase := Lodash.camelCase |}.

(** The directory of the README: three files, two profiles. *)
Definition readmeFiles : list (string * string) :=
  [("/app/configs/generic.yaml", "generic");
   ("/app/configs/db/mongo.yaml", "mongo");
   ("/app/configs/movie-catalog.yaml", "catalog")].

Definition readmeDocs : list (string * JsVal) :=
  [("generic", objectOf [("default", objectOf [("debug", VBool true)]);
                         ("production", objectOf [("debug", VBool false)])]);
   ("mongo", objectOf [("default", objectOf [("host", VStr "localhost"); ("port", VNum 27017)]);
                       ("production", objectOf [("host", VStr "12.12.12.12")])]);
   ("catalog", objectOf [("default", objectOf [("cache", VNum 0)]);
                         ("production", objectOf [("cache", VNum (-1))])])].

Definition readme (env : option string) : Host := host env readmeFiles readmeDocs.

(** The directory of the test [process config paths]. *)
Definition dashes : Host :=
  host None
    [("/app/configs/path-with-dashes/conf1.yaml", "conf1")]
    [("conf1", objectOf [("default", objectOf [("str", VStr "a string"); ("num", VNum 12)])])].

(** A directory with one file that parses and one that does not. *)
Definition broken : Host :=
  host None
    [("/app/configs/main.yaml", "main"); ("/app/configs/broken.yaml", "broken: [")]
    [("main", objectOf [("default", objectOf [("port", VNum 80)])])].

(** A directory with two files whose names camel-case to the same path. *)
Definition collide : Host :=
  host None
    [("/app/configs/a-b.yaml", "first"); ("/app/configs/a_b.yaml", "second")]
    [("first", objectOf [("default", objectOf [("n", VNum 1)])]);
     ("second", objectOf [("default", objectOf [("n", VNum 2)])])].

(** The same host with [path.resolve] as Node has it on absolute paths: an
    absolute last argument is the result. *)
Definition resolving (h : Host) : Host :=
  {| NODE_ENV := NODE_ENV h;
     dirname := dirname h;
     isAbsolute := isAbsolute h;
     resolve := fun from to => if Str.startsWith "/" to then to else resolve h from to;
     relative := relative h;
     find_file := find_file h;
     readFile := readFile h;
     yaml_load := yaml_load h;
     JSON_parse := JSON_parse h;
     camelCase := camelCase h |}.

(** A directory whose names camel-casing leaves as they are. *)
Definition plain : Host :=
  resolving
    (host (Some "production")
       [("/app/configs/generic.yaml", "generic"); ("/app/configs/db/mongo.yaml", "mongo")]
       readmeDocs).

(** A host whose search reports a file that cannot be read. *)
Definition vanished : Host :=
  {| NODE_ENV := None;
     dirname := dirname (readme None);
     isAbsolute := isAbsolute (readme None);
     resolve := resolve (readme None);
     relative := relative (readme None);
     find_file := fun _ _ => inr ["/app/configs/generic.yaml"; "/app/configs/gone.yaml"];
     readFile := readFile (readme None);
     yaml_load := yaml_load (readme None);
     JSON_parse := JSON_parse (readme None);
     camelCase := camelCase (readme None) |}.

(** A directory with an empty file, which parses to [undefined]. *)
Definition blank : Host :=
  host None [("/app/configs/blank.yaml", "")] [("", VUndef)].

(** A directory in which a directory name contains the extension. *)
Definition dotted : Host :=
  host None
    [("/app/configs/db.yaml/x.yaml", "x")]
    [("x", objectOf [("default", objectOf [("port", VNum 5432)])])].

(** A host in which the search finds the directory but no file. *)
Definition emptyDir : Host :=
  {| NODE_ENV := None;
     dirname := dirname (readme None);
     isAbsolute := isAbsolute (readme None);
     resolve := resolve (readme None);
     relative := relative (readme None);
     find_file := fun _ _ => inr [];
     readFile := readFile (readme None);
     yaml_load := yaml_load (readme None);
     JSON_parse := JSON_parse (readme None);
     camelCase := camelCase (readme None) |}.

(** A parser of the caller's that rejects every file. *)
Definition rejecting : Parser := fun file encoding => inl (Failure "Error: bad syntax").

Definition withParser (p : Parser) : Options :=
  {| filePattern := None; fileEncoding := None; fileParser := Some p;
     pathNormalizer := None; defaultProfile := None; profile := None;
     dryRun := None |}.

Definition withNormalizer (n : string -> string) : Options :=
  {| filePattern := None; fileEncoding := None; fileParser := None;
     pathNormalizer := Some n; defaultProfile := None; profile := None;
     dryRun := None |}.

Definition withProfile (p : string) (dry : bool) : Options :=
  {| filePattern := None; fileEncoding := None; fileParser := None;
     pathNormalizer := None; defaultProfile := None; profile := Some p;
     dryRun := Some dry |}.

End Demo.

(** * Properties *)

(** ** The store and the heap *)

Lemma deleteKey_store l key st : store (deleteKey l key st) = store st.
Proof. reflexivity. Qed.

Lemma setAt_store l config st : store (setAt l config st) = store st.
Proof. reflexivity. Qed.

Lemma contents_deleteKey l key st :
  contents (deleteKey l key st) l = delete key (contents st l).
Proof. unfold contents, deleteKey; simpl. by rewrite lookup_insert_eq. Qed.

Lemma heap_deleteKey_ne l l' key st :
  l' ≠ l -> heap (deleteKey l key st) !! l' = heap st !! l'.
Proof. intros Hne. unfold deleteKey; simpl. by rewrite lookup_insert_ne. Qed.

Lemma contents_setAt l config st :
  contents (setAt l config st) l = Lodash.set (contents st l) (path config) (value config).
Proof. unfold contents at 1, setAt; simpl. by rewrite lookup_insert_eq. Qed.

Lemma heap_setAt_ne l l' config st :
  l' ≠ l -> heap (setAt l config st) !! l' = heap st !! l'.
Proof. intros Hne. unfold setAt; simpl. by rewrite lookup_insert_ne. Qed.

(** Deleting a list of keys one after the other. *)
Lemma deleteKeys_spec ks st :
  let st' := foldl (fun st key => deleteKey (store st) key st) st ks in
  store st' = store st
  /\ contents st' (store st) = foldl (fun m key => delete key m) (contents st (store st)) ks
  /\ (forall l, l ≠ store st -> heap st' !! l = heap st !! l).
Proof.
  revert st. induction ks as [|k ks IH]; intros st; simpl; [done|].
  destruct (IH (deleteKey (store st) k st)) as (Hs & Hc & Hh).
  rewrite deleteKey_store in Hs, Hc, Hh.
  split; [done|]. split.
  - by rewrite Hc, contents_deleteKey.
  - intros l Hl. rewrite Hh by done. by apply heap_deleteKey_ne.
Qed.

Lemma lookup_foldl_delete (m : Obj) ks k :
  foldl (fun m key => delete key m) m ks !! k = if bool_decide (k ∈ ks) then None else m !! k.
Proof.
  revert m. induction ks as [|k' ks IH]; intros m.
  - done.
  - cbn [foldl]. rewrite IH.
    rewrite (bool_decide_ext (k ∈ k' :: ks) (k = k' \/ k ∈ ks)) by apply elem_of_cons.
    destruct (decide (k = k')) as [->|Hne].
    + rewrite lookup_delete_eq, (bool_decide_eq_true_2 (k' = k' \/ _)) by (by left).
      by case_bool_decide.
    + rewrite lookup_delete_ne by done.
      apply (f_equal (fun b : bool => if b then None else m !! k)).
      apply bool_decide_ext. tauto.
Qed.

Lemma delete_all_keys (m : Obj) :
  foldl (fun m key => delete key m) m (Lodash.keys m) = ∅.
Proof.
  apply map_eq. intros k. rewrite lookup_foldl_delete, lookup_empty.
  case_bool_decide as Hk; [done|].
  destruct (m !! k) as [v|] eqn:Hm; [|done].
  exfalso. apply Hk. unfold Lodash.keys.
  apply list_elem_of_fmap. exists (k, v). split; [done|].
  by apply elem_of_map_to_list.
Qed.

(** [clear] keeps the binding, empties the object it is bound to and leaves
    every other object alone. *)
Lemma clear_spec st :
  store (clear st) = store st
  /\ contents (clear st) (store st) = ∅
  /\ (forall l, l ≠ store st -> heap (clear st) !! l = heap st !! l).
Proof.
  unfold clear.
  destruct (deleteKeys_spec (Lodash.keys (contents st (store st))) st) as (Hs & Hc & Hh).
  split; [done|]. split; [|done].
  rewrite Hc. apply delete_all_keys.
Qed.

(** A batch of assignments into the object at [l]. *)
Lemma setAt_batch l configs st :
  let st' := foldl (fun st config => setAt l config st) st configs in
  store st' = store st
  /\ contents st' l = applyBatch configs (contents st l)
  /\ (forall l', l' ≠ l -> heap st' !! l' = heap st !! l').
Proof.
  revert st. induction configs as [|c configs IH]; intros st; simpl; [done|].
  destruct (IH (setAt l c st)) as (Hs & Hc & Hh).
  split; [done|]. split.
  - by rewrite Hc, contents_setAt.
  - intros l' Hl. rewrite Hh by done. by apply heap_setAt_ne.
Qed.

(** The same when the reference is read off the binding at each step. *)
Lemma setAt_store_batch configs st :
  foldl (fun st config => setAt (store st) config st) st configs
  = foldl (fun st' config => setAt (store st) config st') st configs.
Proof.
  generalize (eq_refl (store st)). generalize (store st) at 1 3 as l.
  intros l. revert st. induction configs as [|c configs IH]; intros st Hl; simpl; [done|].
  rewrite <- Hl. apply IH. by rewrite setAt_store.
Qed.

(** ** The tasks of [load] *)

Lemma load_entries h dir options st :
  load h dir options st =
  match entries h dir options with
  | Next configs =>
      let '(s, st') := commit (defaults h options) configs st in (finish s, st')
  | Abort e => (Callback (Some e) None, st)
  | Raise e => (Uncaught e, st)
  end.
Proof.
  unfold load, entries, bind, lift.
  destruct (listDir _ _ _); [|done|done].
  destruct (mapStep (loadFile _ _ _) _); [|done|done].
  destruct (mapStep (solve _) _); done.
Qed.

(** A real commit: the callback gets the store, the store holds the batch
    applied to the emptied object, every other object is as before. *)
Lemma commit_real opts configs st :
  r_dryRun opts = false ->
  (commit opts configs st).1 = Next (store st)
  /\ store (commit opts configs st).2 = store st
  /\ contents (commit opts configs st).2 (store st) = applyBatch configs ∅
  /\ (forall l, l ≠ store st -> heap (commit opts configs st).2 !! l = heap st !! l).
Proof.
  intros Hdry. unfold commit. rewrite Hdry. cbn [fst snd].
  destruct (clear_spec st) as (Hs & Hc & Hh).
  rewrite setAt_store_batch, Hs.
  destruct (setAt_batch (store st) configs (clear st)) as (Hs' & Hc' & Hh').
  split; [done|]. split; [congruence|]. split.
  - by rewrite Hc', Hc.
  - intros l Hl. rewrite Hh' by done. by apply Hh.
Qed.

(** A dry run: the callback gets a new object that holds the batch applied
    to [{}]; every object that existed is as before. *)
Lemma commit_dry opts configs st :
  r_dryRun opts = true ->
  let t := fresh ({[store st]} ∪ dom (heap st)) in
  (commit opts configs st).1 = Next t
  /\ t ≠ store st
  /\ heap st !! t = None
  /\ store (commit opts configs st).2 = store st
  /\ contents (commit opts configs st).2 t = applyBatch configs ∅
  /\ (forall l, l ≠ t -> heap (commit opts configs st).2 !! l = heap st !! l).
Proof.
  intros Hdry t. unfold commit. rewrite Hdry. cbn [newObject fst snd]. fold t.
  pose proof (is_fresh ({[store st]} ∪ dom (heap st))) as Hfresh. fold t in Hfresh.
  set (st1 := {| store := store st; heap := <[t:=∅]> (heap st) |}).
  destruct (setAt_batch t configs st1) as (Hs' & Hc' & Hh').
  split; [done|]. split; [set_solver|]. split; [apply not_elem_of_dom; set_solver|].
  split; [done|]. split.
  - rewrite Hc'. f_equal. unfold contents, st1; simpl. by rewrite lookup_insert_eq.
  - intros l Hl. rewrite Hh' by done. unfold st1; simpl. by rewrite lookup_insert_ne.
Qed.

Lemma run_store calls st : store (run calls st) = store st.
Proof.
  unfold run. revert st. induction calls as [|c calls IH]; intros st; [done|].
  cbn [foldl]. rewrite IH. destruct c as [|h dir options]; simpl.
  - apply clear_spec.
  - rewrite load_entries. destruct (entries h dir options) as [configs|e|e]; [|done|done].
    destruct (r_dryRun (defaults h options)) eqn:Hdry.
    + destruct (commit_dry _ configs st Hdry) as (_ & _ & _ & Hs & _).
      by destruct (commit _ _ _).
    + destruct (commit_real _ configs st Hdry) as (_ & Hs & _).
      by destruct (commit _ _ _).
Qed.

(** ** Store identity *)

(** C2. The exported store is one object for the whole life of the module:
    after any sequence of [clear] and [load] calls (successful or failed,
    dry-run or not) the binding [store] is the reference it was, and a
    successful real load hands that same reference to its callback with the
    newly loaded values readable through it. *)
Theorem store_identity_preserved (calls : list Call) (st : State) :
  let captured := store st in
  store (run calls st) = captured
  /\ store (clear (run calls st)) = captured
  /\ contents (clear (run calls st)) captured = ∅
  /\ (forall h dir options,
        store (load h dir options (run calls st)).2 = captured)
  /\ (forall h dir options configs,
        r_dryRun (defaults h options) = false ->
        entries h dir options = Next configs ->
        (load h dir options (run calls st)).1 = Callback None (Some captured)
        /\ contents (load h dir options (run calls st)).2 captured = applyBatch configs ∅).
Proof.
  intros captured. pose proof (run_store calls st) as Hrun. fold captured in Hrun.
  split; [done|].
  destruct (clear_spec (run calls st)) as (Hs & Hc & _). rewrite Hrun in Hs, Hc.
  split; [done|]. split; [done|]. split.
  - intros h dir options.
    change (load h dir options (run calls st)).2 with (run [CallLoad h dir options] (run calls st)).
    by rewrite run_store.
  - intros h dir options configs Hdry Hentries.
    rewrite load_entries, Hentries.
    destruct (commit_real _ configs (run calls st) Hdry) as (H1 & _ & H3 & _).
    rewrite Hrun in H1, H3.
    destruct (commit _ _ _) as [s st']; cbn [fst snd] in *. by subst s.
Qed.

(** The instance of C2 at the README's directory: a load, a [clear], and a
    reload for the profile [production], observed through the reference
    captured at the start. *)
Lemma store_identity_preserved_witness :
  let calls := [CallLoad (Demo.readme None) "/app/configs" noOptions; CallClear] in
  let h := Demo.readme (Some "production") in
  let captured := store initial in
  store (run calls initial) = captured
  /\ (load h "/app/configs" noOptions (run calls initial)).1 = Callback None (Some captured)
  /\ contents (load h "/app/configs" noOptions (run calls initial)).2 captured !! "generic"
     = Some (objectOf [("debug", VBool false)]).
Proof.
  intros calls h captured.
  destruct (store_identity_preserved calls initial) as (Hrun & _ & _ & _ & Hload).
  split; [exact Hrun|].
  edestruct (Hload h "/app/configs" noOptions) as [Hout Hcontents].
  { reflexivity. }
  { vm_compute. reflexivity. }
  split; [exact Hout|].
  fold captured in Hcontents. rewrite Hcontents. vm_compute. reflexivity.
Defined.

(** ** Dry runs *)

(** C3. A load with [dryRun] set never mutates the store: the binding, the
    object it is bound to and every object that existed before the call are
    as they were, whatever the outcome; a successful dry run hands its
    callback an object allocated by the call, which holds the batch applied
    to an empty tree. *)
Theorem dry_run_leaves_store (h : Host) (dir : string) (options : Options) (st : State) :
  r_dryRun (defaults h options) = true ->
  let out := (load h dir options st).1 in
  let st' := (load h dir options st).2 in
  store st' = store st
  /\ heap st' !! store st = heap st !! store st
  /\ contents st' (store st) = contents st (store st)
  /\ (forall l, is_Some (heap st !! l) -> heap st' !! l = heap st !! l)
  /\ (forall t, out = Callback None (Some t) ->
        t ≠ store st /\ heap st !! t = None
        /\ exists configs, entries h dir options = Next configs
                         /\ contents st' t = applyBatch configs ∅).
Proof.
  intros Hdry out st'. subst out st'. rewrite load_entries.
  destruct (entries h dir options) as [configs|e|e].
  - destruct (commit_dry _ configs st Hdry) as (H1 & H2 & H3 & H4 & H5 & H6).
    destruct (commit _ _ _) as [s st']; cbn [fst snd] in *. subst s. simpl.
    assert (Hstore : heap st' !! store st = heap st !! store st) by (apply H6; congruence).
    split; [done|]. split; [done|]. split; [unfold contents; by rewrite Hstore|].
    split.
    + intros l [x Hl]. apply H6. intros ->. congruence.
    + intros t [= <-]. split; [done|]. split; [done|]. by exists configs.
  - simpl. repeat split; done.
  - simpl. repeat split; done.
Qed.

(** The instance of C3 at a dry run for the profile [production] after a
    load of the README's directory. *)
Lemma dry_run_leaves_store_witness :
  let h := Demo.readme None in
  let st := (load h "/app/configs" noOptions initial).2 in
  let dry := load h "/app/configs" (Demo.withProfile "production" true) st in
  store dry.2 = store st
  /\ heap dry.2 !! store st = heap st !! store st
  /\ contents st (store st) !! "generic" = Some (objectOf [("debug", VBool true)])
  /\ exists t, dry.1 = Callback None (Some t) /\ t ≠ store st
                /\ contents dry.2 t !! "generic" = Some (objectOf [("debug", VBool false)]).
Proof.
  intros h st dry.
  destruct (dry_run_leaves_store h "/app/configs" (Demo.withProfile "production" true) st)
    as (Hstore & Hcell & _ & _ & Hresult).
  { reflexivity. }
  split; [exact Hstore|]. split; [exact Hcell|]. split; [vm_compute; reflexivity|].
  exists 2%positive.
  destruct (Hresult 2%positive) as (Hne & _ & _).
  { vm_compute. reflexivity. }
  split; [vm_compute; reflexivity|]. split; [exact Hne|]. vm_compute. reflexivity.
Defined.

(** C4. For every list of resolved entries, the tree a dry run returns is
    the tree the store holds after a real load of the same entries: both are
    the batch of assignments applied to an empty tree, whatever the store
    held before. *)
Theorem dry_run_tree_matches_store
    (dry real : Resolved) (configs : list Config) (st1 st2 : State) :
  r_dryRun dry = true ->
  r_dryRun real = false ->
  exists t,
    (commit dry configs st1).1 = Next t
    /\ (commit real configs st2).1 = Next (store st2)
    /\ contents (commit dry configs st1).2 t = applyBatch configs ∅
    /\ contents (commit real configs st2).2 (store st2) = applyBatch configs ∅
    /\ contents (commit dry configs st1).2 t
       = contents (commit real configs st2).2 (store st2).
Proof.
  intros Hdry Hreal.
  destruct (commit_dry dry configs st1 Hdry) as (H1 & _ & _ & _ & H5 & _).
  destruct (commit_real real configs st2 Hreal) as (R1 & _ & R3 & _).
  eexists. split; [exact H1|]. split; [exact R1|].
  split; [exact H5|]. split; [exact R3|]. by rewrite H5, R3.
Qed.

(** The instance of C4 at the entries of the README's directory, committed
    as a dry run on the initial state and for real on a loaded one. *)
Lemma dry_run_tree_matches_store_witness :
  let h := Demo.readme None in
  let dry := defaults h (Demo.withProfile "production" true) in
  let real := defaults h (Demo.withProfile "production" false) in
  let loaded := (load h "/app/configs" noOptions initial).2 in
  let configs :=
    [{| path := "generic"; value := objectOf [("debug", VBool false)] |};
     {| path := "db.mongo";
        value := objectOf [("host", VStr "12.12.12.12"); ("port", VNum 27017)] |}] in
  exists t,
    (commit dry configs initial).1 = Next t
    /\ contents (commit dry configs initial).2 t
       = contents (commit real configs loaded).2 (store loaded).
Proof.
  intros h dry real loaded configs.
  destruct (dry_run_tree_matches_store dry real configs initial loaded)
    as (t & Hdry & _ & _ & _ & Hsame).
  { reflexivity. }
  { reflexivity. }
  exists t. split; [exact Hdry|exact Hsame].
Defined.

(** ** Empty directories and reloads *)

(** C8. When discovery finds no file the load succeeds: a real load leaves
    the store empty and passes it to the callback; a dry run passes a new
    empty tree and leaves the store alone. *)
Theorem load_empty_directory (h : Host) (dir : string) (options : Options) (st : State) :
  find_file h (r_filePattern (defaults h options)) (rootOf h dir) = inr [] ->
  let out := (load h dir options st).1 in
  let st' := (load h dir options st).2 in
  if r_dryRun (defaults h options)
  then exists t, out = Callback None (Some t)
                 /\ t ≠ store st /\ heap st !! t = None
                 /\ contents st' t = ∅
                 /\ store st' = store st
                 /\ heap st' !! store st = heap st !! store st
  else out = Callback None (Some (store st))
       /\ store st' = store st
       /\ contents st' (store st) = ∅.
Proof.
  intros Hfind out st'. subst out st'. rewrite load_entries.
  assert (Hentries : entries h dir options = Next []).
  { unfold entries, listDir. fold (rootOf h dir). by rewrite Hfind. }
  rewrite Hentries.
  destruct (r_dryRun (defaults h options)) eqn:Hdry.
  - destruct (commit_dry _ [] st Hdry) as (H1 & H2 & H3 & H4 & H5 & H6).
    destruct (commit _ _ _) as [s st']; cbn [fst snd] in *. subst s.
    eexists. split; [done|]. repeat split; try done. apply H6. congruence.
  - destruct (commit_real _ [] st Hdry) as (H1 & H2 & H3 & _).
    destruct (commit _ _ _) as [s st']; cbn [fst snd] in *. by subst s.
Qed.

(** The instance of C8 at a real load of an empty directory after a load
    of the README's. *)
Lemma load_empty_directory_witness :
  let st := (load (Demo.readme None) "/app/configs" noOptions initial).2 in
  contents st (store st) !! "generic" = Some (objectOf [("debug", VBool true)])
  /\ (load Demo.emptyDir "/app/configs" noOptions st).1 = Callback None (Some (store st))
  /\ store (load Demo.emptyDir "/app/configs" noOptions st).2 = store st
  /\ contents (load Demo.emptyDir "/app/configs" noOptions st).2 (store st) = ∅.
Proof.
  intros st. split; [vm_compute; reflexivity|].
  exact (load_empty_directory Demo.emptyDir "/app/configs" noOptions st eq_refl).
Defined.

(** C9. Loading the same unchanged directory twice with the same options
    is idempotent on the store: when the first real load succeeds, so does
    the second, and the store holds the same tree after either. *)
Theorem load_twice_idempotent (h : Host) (dir : string) (options : Options)
    (st : State) (r : loc) :
  r_dryRun (defaults h options) = false ->
  (load h dir options st).1 = Callback None (Some r) ->
  let st1 := (load h dir options st).2 in
  let st2 := (load h dir options st1).2 in
  (load h dir options st1).1 = Callback None (Some r)
  /\ r = store st /\ store st1 = store st /\ store st2 = store st
  /\ contents st2 r = contents st1 r
  /\ (forall l, l ≠ r -> heap st2 !! l = heap st !! l).
Proof.
  intros Hdry Hout st1 st2. subst st1 st2. revert Hout.
  rewrite (load_entries h dir options st).
  destruct (entries h dir options) as [configs|e|e] eqn:Hentries; [|done|done].
  destruct (commit_real _ configs st Hdry) as (H1 & H2 & H3 & H4).
  destruct (commit _ _ st) as [s st1]; cbn [fst snd] in *. subst s. simpl. intros [= <-].
  rewrite load_entries, Hentries.
  destruct (commit_real _ configs st1 Hdry) as (R1 & R2 & R3 & R4).
  destruct (commit _ _ st1) as [s st2]; cbn [fst snd] in *. subst s. simpl.
  rewrite H2 in *. split; [done|]. split; [done|]. split; [done|]. split; [done|].
  split; [by rewrite R3, H3|].
  intros l Hl. rewrite R4 by done. by apply H4.
Qed.

(** The instance of C9 at two loads of the README's directory. *)
Lemma load_twice_idempotent_witness :
  let h := Demo.readme None in
  let st1 := (load h "/app/configs" noOptions initial).2 in
  let st2 := (load h "/app/configs" noOptions st1).2 in
  (load h "/app/configs" noOptions st1).1 = Callback None (Some 1%positive)
  /\ contents st2 1%positive = contents st1 1%positive.
Proof.
  intros h st1 st2.
  destruct (load_twice_idempotent h "/app/configs" noOptions initial 1%positive)
    as (Hout & _ & _ & _ & Hsame & _).
  { reflexivity. }
  { vm_compute. reflexivity. }
  split; [exact Hout|exact Hsame].
Defined.

(** ** Dotted paths *)

Local Arguments String.append !s1 s2 /.

Lemma append_assoc (a b c : string) : (a +:+ b) +:+ c = a +:+ (b +:+ c).
Proof. induction a as [|x a IH]; simpl; [done|]. by rewrite IH. Qed.

Lemma append_length (a b : string) :
  String.length (a +:+ b) = String.length a + String.length b.
Proof. induction a as [|x a IH]; simpl; [done|]. by rewrite IH. Qed.

Lemma startsWith_length p s :
  Str.startsWith p s = true -> String.length p <= String.length s.
Proof.
  revert s. induction p as [|a p IH]; intros [|b s]; simpl; try done; try lia.
  destruct (Ascii.eqb a b); [|done]. intros H%IH. lia.
Qed.

Lemma startsWith_append p s : Str.startsWith p (p +:+ s) = true.
Proof. induction p as [|a p IH]; simpl; [done|]. by rewrite Ascii.eqb_refl. Qed.

Lemma startsWith_split p s :
  Str.startsWith p s = true -> s = p +:+ Str.drop (String.length p) s.
Proof.
  revert s. induction p as [|a p IH]; intros [|b s]; simpl; try done.
  destruct (Ascii.eqb_spec a b) as [->|]; [|done]. intros H%IH. by f_equal.
Qed.

Lemma startsWith_long p u v :
  String.length p <= String.length u ->
  Str.startsWith p (u +:+ v) = Str.startsWith p u.
Proof.
  revert u. induction p as [|a p IH]; intros [|b u]; simpl; try done; try lia.
  intros Hlen. destruct (Ascii.eqb a b); [|done]. apply IH. lia.
Qed.

Lemma drop_append n u v :
  n <= String.length u -> Str.drop n (u +:+ v) = Str.drop n u +:+ v.
Proof.
  revert u. induction n as [|n IH]; intros [|b u]; simpl; try done; try lia.
  intros Hlen. apply IH. lia.
Qed.

Lemma occurs_length p s :
  Str.occurs p s = true -> String.length p <= String.length s.
Proof.
  induction s as [|b s IH]; cbn [Str.occurs].
  - destruct (Str.startsWith p "") eqn:Hp; [|done]. intros _. by apply startsWith_length.
  - destruct (Str.startsWith p (String b s)) eqn:Hp.
    + intros _. by apply startsWith_length.
    + intros H%IH. simpl. lia.
Qed.

Lemma occurs_append p a b : Str.occurs p (a +:+ p +:+ b) = true.
Proof.
  induction a as [|x a IH].
  - simpl. destruct (p +:+ b) eqn:E; cbn [Str.occurs];
      rewrite <- E, startsWith_append; done.
  - change (String x a +:+ p +:+ b) with (String x (a +:+ p +:+ b)).
    cbn [Str.occurs]. rewrite IH. by destruct (Str.startsWith _ _).
Qed.

(** Removing the first occurrence only looks at the part of the text that
    holds an occurrence. *)
Lemma removeFirst_append p u v :
  Str.occurs p u = true ->
  Str.removeFirst p (u +:+ v) = Str.removeFirst p u +:+ v.
Proof.
  induction u as [|b u IH]; intros Hocc.
  - pose proof (occurs_length _ _ Hocc) as Hlen. destruct p; simpl in Hlen; [|lia].
    simpl. by destruct v.
  - pose proof (occurs_length _ _ Hocc) as Hlen.
    change (String b u +:+ v) with (String b (u +:+ v)).
    cbn [Str.removeFirst]. change (String b (u +:+ v)) with (String b u +:+ v).
    rewrite startsWith_long by done.
    cbn [Str.occurs] in Hocc.
    destruct (Str.startsWith p (String b u)) eqn:Hp.
    + apply drop_append. by apply startsWith_length.
    + simpl. f_equal. by apply IH.
Qed.

(** [removeFirst] removes an occurrence, and no occurrence starts before
    the one it removes. *)
Lemma removeFirst_first p s :
  Str.occurs p s = true ->
  exists u v, s = u +:+ p +:+ v /\ Str.removeFirst p s = u +:+ v
              /\ forall u' v', s = u' +:+ p +:+ v' -> String.length u <= String.length u'.
Proof.
  induction s as [|b s IH]; cbn [Str.occurs Str.removeFirst].
  - destruct (Str.startsWith p "") eqn:Hp; [|done]. intros _.
    exists "", (Str.drop (String.length p) "").
    split; [by apply startsWith_split|]. split; [done|]. simpl; lia.
  - destruct (Str.startsWith p (String b s)) eqn:Hp.
    + intros _. exists "", (Str.drop (String.length p) (String b s)).
      split; [by apply startsWith_split|]. split; [done|]. simpl; lia.
    + intros (u & v & Hs & Hr & Hmin)%IH.
      exists (String b u), v. split; [simpl; by rewrite <- Hs|].
      split; [simpl; by rewrite Hr|].
      intros [|b' u'] v' Heq.
      * simpl in Heq. rewrite Heq, startsWith_append in Hp. done.
      * simpl in Heq. injection Heq as -> Heq. apply Hmin in Heq. simpl. lia.
Qed.

Lemma split_nonempty sep s : Str.split sep s ≠ [].
Proof.
  induction s as [|c s IH]; simpl; [done|].
  destruct (Ascii.eqb c sep); [done|]. by destruct (Str.split sep s).
Qed.

Lemma split_append sep u v :
  Str.split sep (u +:+ String sep v) = (Str.split sep u ++ Str.split sep v)%list.
Proof.
  induction u as [|c u IH]; simpl.
  - by rewrite Ascii.eqb_refl.
  - destruct (Ascii.eqb c sep); [by rewrite IH|].
    rewrite IH. pose proof (split_nonempty sep u).
    by destruct (Str.split sep u).
Qed.

Lemma split_no_separator sep s :
  Str.contains sep s = false -> Str.split sep s = [s].
Proof.
  induction s as [|c s IH]; simpl; [done|].
  destruct (Ascii.eqb c sep); [done|]. simpl. intros H%IH. by rewrite H.
Qed.

Lemma contains_append_r sep a b :
  Str.contains sep (a +:+ b) = false -> Str.contains sep b = false.
Proof.
  induction a as [|c a IH]; simpl; [done|].
  destruct (Ascii.eqb c sep); [done|]. apply IH.
Qed.

(** C10. [toDotPath] removes the extension by deleting its first occurrence
    anywhere in the path.  For a relative path whose extension [ext] also
    occurs in an earlier segment (the path is [a ++ ext ++ b ++ "/" ++ stem
    ++ ext]), an occurrence no later than that earlier one is deleted, the
    last segment keeps its extension, and the name handed to the normalizer
    for the last segment of the dotted path is [stem ++ ext]. *)
Theorem toDotPath_removes_first_extension
    (h : Host) (opts : option DotPathOptions) (a b stem ext : string) :
  let filepath := a +:+ ext +:+ b +:+ "/" +:+ stem +:+ ext in
  let normalizer := default (camelCase h) (opts ≫= dp_pathNormalizer) in
  ext ≠ "" ->
  Path.extname filepath = ext ->
  Str.contains "/" (stem +:+ ext) = false ->
  exists u v,
    a +:+ ext +:+ b = u +:+ ext +:+ v
    /\ String.length u <= String.length a
    /\ Str.removeFirst ext filepath = u +:+ v +:+ "/" +:+ stem +:+ ext
    /\ toDotPath h filepath opts =
       Str.join "."
         (map normalizer (filter (fun n => Is_true (Str.nonEmpty n))
                            (Str.split Path.sep (u +:+ v)))
          ++ [normalizer (stem +:+ ext)])%list.
Proof.
  intros filepath normalizer Hext Hextname Hbase.
  pose proof (occurs_append ext a b) as Hocc.
  destruct (removeFirst_first _ _ Hocc) as (u & v & Heq & Hrem & Hmin).
  exists u, v. split; [done|]. split; [by apply (Hmin a b)|].
  assert (Hremoved : Str.removeFirst ext filepath = u +:+ v +:+ "/" +:+ stem +:+ ext).
  { unfold filepath.
    replace (a +:+ ext +:+ b +:+ "/" +:+ stem +:+ ext)
      with ((a +:+ ext +:+ b) +:+ "/" +:+ stem +:+ ext)
      by (by rewrite !append_assoc).
    rewrite removeFirst_append by done. rewrite Hrem. by rewrite !append_assoc. }
  split; [done|].
  unfold toDotPath, Path.sep. fold normalizer. rewrite Hextname, Hremoved.
  replace (u +:+ v +:+ "/" +:+ stem +:+ ext)
    with ((u +:+ v) +:+ String "/"%char (stem +:+ ext))
    by (by rewrite !append_assoc).
  rewrite split_append, (split_no_separator _ _ Hbase), filter_app, map_app.
  do 2 f_equal.
  destruct (stem +:+ ext) as [|c rest] eqn:E.
  - destruct stem; [|done]. simpl in E. done.
  - rewrite filter_cons_True by done. done.
Qed.

(** The instance of C10 at [db.yaml/x.yaml]: the directory loses its
    [.yaml], the file keeps it, and the dotted path ends in the normalised
    [x.yaml]. *)
Lemma toDotPath_removes_first_extension_witness :
  Path.extname "db.yaml/x.yaml" = ".yaml"
  /\ Str.removeFirst ".yaml" "db.yaml/x.yaml" = "db/x.yaml"
  /\ toDotPath Demo.dotted "db.yaml/x.yaml" None = "db.xYaml"
  /\ exists u v,
       "db.yaml" = u +:+ ".yaml" +:+ v
       /\ String.length u <= String.length "db"
       /\ Str.removeFirst ".yaml" "db.yaml/x.yaml" = u +:+ v +:+ "/x.yaml"
       /\ toDotPath Demo.dotted "db.yaml/x.yaml" None
          = Str.join "."
              (map Lodash.camelCase
                 (filter (fun n => Is_true (Str.nonEmpty n)) (Str.split Path.sep (u +:+ v)))
               ++ [Lodash.camelCase "x.yaml"])%list.
Proof.
  split; [reflexivity|]. split; [reflexivity|]. split; [reflexivity|].
  apply (toDotPath_removes_first_extension Demo.dotted None "db" "" "x" ".yaml").
  - discriminate.
  - reflexivity.
  - reflexivity.
Defined.

(** ** Profiles *)











(** Likewise an array section comes back as a plain object with the indices
    as keys. *)
Example array_default_section_reshaped :
  let file := objectOf [("default", arrayOf [VStr "a"; VStr "b"])] in
  let config := {| path := "list"; value := file |} in
  let opts := defaults (Demo.readme (Some "production")) noOptions in
  value (solveEntry opts config) = objectOf [("0", VStr "a"); ("1", VStr "b")]
  /\ value (solveEntry opts config) ≠ arrayOf [VStr "a"; VStr "b"].
Proof. vm_compute. split; [reflexivity|discriminate]. Qed.

(** ** Failures *)

Lemma mapStep_first_abort {A B} (f : A -> Step B) (l : list A) :
  (forall a e, f a ≠ Raise e) ->
  Exists (fun a => exists e, f a = Abort e) l ->
  exists a e, a ∈ l /\ f a = Abort e /\ mapStep f l = Abort e.
Proof.
  intros Hraise. induction l as [|a l IH]; intros Hex.
  - by apply Exists_nil in Hex.
  - cbn [mapStep]. destruct (f a) as [b|e|e] eqn:Hfa.
    + apply Exists_cons in Hex as [[e He]|Hex]; [congruence|].
      destruct (IH Hex) as (a' & e & Hin & Ha' & Hmap).
      exists a', e. rewrite Hmap. split; [by right|done].
    + exists a, e. split; [by left|done].
    + by destruct (Hraise a e).
Qed.

Lemma mapStep_all_next {A B} (f : A -> Step B) (g : A -> B) (l : list A) :
  Forall (fun a => f a = Next (g a)) l -> mapStep f l = Next (map g l).
Proof.
  induction 1 as [|a l Ha _ IH]; [done|]. cbn [mapStep map]. by rewrite Ha, IH.
Qed.

Lemma loadFile_abort h dir opts file e :
  loadFile h dir opts file = Abort e <-> r_fileParser opts file (r_fileEncoding opts) = inl e.
Proof.
  unfold loadFile. destruct (r_fileParser _ _ _) as [e'|v]; split; intros H; by simplify_eq.
Qed.

Lemma loadFile_no_raise h dir opts file e : loadFile h dir opts file ≠ Raise e.
Proof. unfold loadFile. by destruct (r_fileParser _ _ _). Qed.

(** When the parser of some file reports a failure, the callback receives
    such a failure and no result, and the state is as it was. *)
Lemma load_abort h dir options st files :
  let opts := defaults h options in
  find_file h (r_filePattern opts) (rootOf h dir) = inr files ->
  Exists (fun file => exists e, r_fileParser opts file (r_fileEncoding opts) = inl e) files ->
  exists file e,
    file ∈ files
    /\ r_fileParser opts file (r_fileEncoding opts) = inl e
    /\ load h dir options st = (Callback (Some e) None, st).
Proof.
  intros opts Hfind Hex.
  destruct (mapStep_first_abort (loadFile h (rootOf h dir) opts) files)
    as (file & e & Hin & Hfile & Hmap).
  { intros a e. apply loadFile_no_raise. }
  { eapply Exists_impl; [exact Hex|]. intros file [e He]. exists e. by apply loadFile_abort. }
  exists file, e. split; [done|]. split; [by apply (loadFile_abort h (rootOf h dir))|].
  rewrite load_entries. unfold entries, listDir. fold (rootOf h dir). fold opts.
  by rewrite Hfind, Hmap.
Qed.

(** When every file parses to a truthy value, the first three tasks pass
    one resolved entry per file to the fourth. *)
Lemma entries_all_parsed h dir options files :
  let opts := defaults h options in
  find_file h (r_filePattern opts) (rootOf h dir) = inr files ->
  Forall (fun file => exists v, r_fileParser opts file (r_fileEncoding opts) = inr v
                                /\ truthy v = true) files ->
  exists configs, entries h dir options = Next configs
                  /\ length configs = length files.
Proof.
  intros opts Hfind Hall.
  unfold entries, listDir. fold (rootOf h dir). fold opts. rewrite Hfind.
  set (entryOf file :=
         {| path := toDotPath h (relative h (rootOf h dir) file) None;
            value := match r_fileParser opts file (r_fileEncoding opts) with
                     | inr v => v
                     | inl _ => VUndef
                     end |}).
  rewrite (mapStep_all_next _ (fun file => Entry (entryOf file))).
  - rewrite (mapStep_all_next _ (fun c => match c with
                                          | Entry c => solveEntry opts c
                                          | Falsy _ => entryOf ""
                                          end)).
    + eexists. split; [done|]. by rewrite !length_map.
    + apply Forall_map. by apply Forall_true.
  - eapply Forall_impl; [exact Hall|]. intros file (v & Hv & Htruthy).
    unfold loadFile, entryOf, relative3. by rewrite Hv, Htruthy.
Qed.

(** C1, as the code has it.  When the parser of at least one discovered
    file reports a failure, the load aborts: the callback receives the
    failure reported for one of the discovered files and no result, no entry
    is applied and the state, the store included, is what it was.  With a
    built-in parser and a file that could be read, that failure is a
    [ParserError] whose message is the text of the underlying parse failure
    followed by the path of the file in quotes. *)
Theorem load_parser_failure (h : Host) (dir : string) (options : Options)
    (st : State) (files : list string) :
  let opts := defaults h options in
  let encoding := r_fileEncoding opts in
  find_file h (r_filePattern opts) (rootOf h dir) = inr files ->
  Exists (fun file => exists e, r_fileParser opts file encoding = inl e) files ->
  exists file e,
    file ∈ files
    /\ r_fileParser opts file encoding = inl e
    /\ load h dir options st = (Callback (Some e) None, st)
    /\ (forall decode data,
          (r_fileParser opts = parseYAML h /\ decode = yaml_load h)
          \/ (r_fileParser opts = parseJSON h /\ decode = JSON_parse h) ->
          readFile h file encoding = inr data ->
          exists err,
            decode data = inl err
            /\ e = ParserError (toString err +:+ " in " +:+ dquote +:+ file +:+ dquote)).
Proof.
  intros opts encoding Hfind Hex.
  destruct (load_abort h dir options st files Hfind Hex) as (file & e & Hin & He & Hload).
  exists file, e. split; [done|]. split; [done|]. split; [done|].
  intros decode data Hbuiltin Hread. fold opts encoding in He.
  destruct Hbuiltin as [[Hp ->]|[Hp ->]]; rewrite Hp in He.
  - unfold parseYAML in He. rewrite Hread in He.
    destruct (yaml_load h data) as [err|v]; [|done].
    exists err. split; [done|]. by injection He as <-.
  - unfold parseJSON in He. rewrite Hread in He.
    destruct (JSON_parse h data) as [err|v]; [|done].
    exists err. split; [done|]. by injection He as <-.
Qed.

(** The instance of C1 at a directory whose second file is malformed. *)
Lemma load_parser_failure_witness :
  exists file e,
    file ∈ ["/app/configs/main.yaml"; "/app/configs/broken.yaml"]
    /\ load Demo.broken "/app/configs" noOptions initial = (Callback (Some e) None, initial)
    /\ e = ParserError ("YAMLException: cannot parse in " +:+ dquote
                         +:+ "/app/configs/broken.yaml" +:+ dquote).
Proof.
  destruct (load_parser_failure Demo.broken "/app/configs" noOptions initial
              ["/app/configs/main.yaml"; "/app/configs/broken.yaml"])
    as (file & e & Hin & He & Hload & Hbuiltin).
  { vm_compute. reflexivity. }
  { apply Exists_cons_tl, Exists_cons_hd. eexists. vm_compute. reflexivity. }
  exists file, e. split; [exact Hin|]. split; [exact Hload|].
  apply list_elem_of_In in Hin. destruct Hin as [<-|[<-|[]]].
  - vm_compute in He. discriminate He.
  - destruct (Hbuiltin (yaml_load Demo.broken) "broken: [") as (err & Herr & ->).
    + left. split; reflexivity.
    + vm_compute. reflexivity.
    + vm_compute in Herr. injection Herr as <-. vm_compute. reflexivity.
Defined.

(** C1 as stated fails for a parser of the caller's: its failure reaches
    the callback as it is, not as a [ParserError]. *)
Lemma custom_parser_failure_not_wrapped :
  let options := Demo.withParser Demo.rejecting in
  let opts := defaults (Demo.readme None) options in
  r_dryRun opts = false
  /\ find_file (Demo.readme None) (r_filePattern opts) "/app/configs"
     = inr ["/app/configs/generic.yaml"; "/app/configs/db/mongo.yaml";
            "/app/configs/movie-catalog.yaml"]
  /\ r_fileParser opts "/app/configs/generic.yaml" (r_fileEncoding opts)
     = inl (Failure "Error: bad syntax")
  /\ load (Demo.readme None) "/app/configs" options initial
     = (Callback (Some (Failure "Error: bad syntax")) None, initial)
  /\ ~ exists message,
        (load (Demo.readme None) "/app/configs" options initial).1
        = Callback (Some (ParserError message)) None.
Proof.
  vm_compute. split; [reflexivity|]. split; [reflexivity|]. split; [reflexivity|].
  split; [reflexivity|]. intros [message H]. discriminate H.
Qed.

Lemma mapStep_abort_inv {A B} (f : A -> Step B) (l : list A) (e : JsError) :
  mapStep f l = Abort e -> exists a, a ∈ l /\ f a = Abort e.
Proof.
  induction l as [|a l IH]; cbn [mapStep]; [done|].
  destruct (f a) as [b|e'|e'] eqn:Hfa; [|intros [= ->]; exists a; split; [by left|done]|done].
  destruct (mapStep f l) as [bs|e'|e']; [done| |done].
  intros [= ->]. destruct IH as (a' & Hin & Ha'); [done|]. exists a'. split; [by right|done].
Qed.

(** The first three tasks report an error only for a failure that the
    parser reported for a discovered file. *)
Lemma entries_abort_inv h dir options e :
  let opts := defaults h options in
  entries h dir options = Abort e ->
  exists files file,
    find_file h (r_filePattern opts) (rootOf h dir) = inr files
    /\ file ∈ files
    /\ r_fileParser opts file (r_fileEncoding opts) = inl e.
Proof.
  intros opts. unfold entries, listDir. fold (rootOf h dir). fold opts.
  destruct (find_file h (r_filePattern opts) (rootOf h dir)) as [e'|files]; [done|].
  destruct (mapStep (loadFile h (rootOf h dir) opts) files) as [loaded|e'|e'] eqn:Hloaded.
  - intros Hsolve. apply mapStep_abort_inv in Hsolve as (c & _ & Hc). by destruct c.
  - intros [= ->]. apply mapStep_abort_inv in Hloaded as (file & Hin & Hfile).
    exists files, file. split; [done|]. split; [done|].
    by apply (loadFile_abort h (rootOf h dir)).
  - done.
Qed.

(** What an invocation of the callback tells: an error comes without a
    result, with the state as it was, and is a failure that the parser
    reported for a discovered file; [null] comes with the tree, which is the
    store for a real load and an object not in use before for a dry run. *)
Lemma load_callback_inv h dir options st error resultTree :
  let opts := defaults h options in
  (load h dir options st).1 = Callback error resultTree ->
  match error with
  | Some e =>
      resultTree = None
      /\ (load h dir options st).2 = st
      /\ exists files file,
           find_file h (r_filePattern opts) (rootOf h dir) = inr files
           /\ file ∈ files
           /\ r_fileParser opts file (r_fileEncoding opts) = inl e
  | None =>
      exists r, resultTree = Some r
                /\ if r_dryRun opts
                   then r ≠ store st /\ heap st !! r = None
                   else r = store st
  end.
Proof.
  intros opts. rewrite load_entries.
  destruct (entries h dir options) as [configs|e|e] eqn:Hentries; cbn [fst snd].
  - fold opts. destruct (r_dryRun opts) eqn:Hdry.
    + destruct (commit_dry opts configs st Hdry) as (H1 & H2 & H3 & _).
      destruct (commit _ _ _) as [s st']; cbn [fst snd] in *. subst s. cbn [finish].
      intros [= <- <-]. eexists. by split.
    + destruct (commit_real opts configs st Hdry) as (H1 & _).
      destruct (commit _ _ _) as [s st']; cbn [fst snd] in *. subst s. cbn [finish].
      intros [= <- <-]. eexists. by split.
  - intros [= <- <-]. split; [done|]. split; [done|]. by apply entries_abort_inv.
  - done.
Qed.




(** An empty file parses to [undefined]; the third task then throws, and
    the exception reaches no callback either. *)
Example blank_file_throws :
  load Demo.blank "/app/configs" noOptions initial = (Uncaught typeError, initial).
Proof. vm_compute. reflexivity. Qed.

(** ** The path normalizer *)

(** C7 fails on the code: [loadFile] writes the options object of
    [toDotPath] inside the call of [path.relative], so the entries of a
    load do not depend on the [pathNormalizer] option and every path is
    built with [_.camelCase].  With the identity as normalizer the file
    [path-with-dashes/conf1.yaml] is still loaded at
    [pathWithDashes.conf1], where the normalizer applied to each segment
    gives [path-with-dashes.conf1]. *)
Theorem load_ignores_pathNormalizer :
  (forall h dir options normalizer,
     entries h dir
       {| filePattern := filePattern options; fileEncoding := fileEncoding options;
          fileParser := fileParser options; pathNormalizer := Some normalizer;
          defaultProfile := defaultProfile options; profile := profile options;
          dryRun := dryRun options |}
     = entries h dir
       {| filePattern := filePattern options; fileEncoding := fileEncoding options;
          fileParser := fileParser options; pathNormalizer := None;
          defaultProfile := defaultProfile options; profile := profile options;
          dryRun := dryRun options |})
  /\ (let options := Demo.withNormalizer (fun name => name) in
      let value := objectOf [("str", VStr "a string"); ("num", VNum 12)] in
      entries Demo.dashes "/app/configs" options
        = Next [{| path := "pathWithDashes.conf1"; value := value |}]
      /\ toDotPath Demo.dashes "path-with-dashes/conf1.yaml"
           (Some {| dp_pathNormalizer := pathNormalizer options |})
         = "path-with-dashes.conf1"
      /\ contents (load Demo.dashes "/app/configs" options initial).2 (store initial)
         = {[ "pathWithDashes" := objectOf [("conf1", value)] ]}).
Proof.
  split.
  - intros h dir options normalizer. reflexivity.
  - vm_compute. split; [reflexivity|]. split; reflexivity.
Qed.

(** ** More on the store *)

(** X1. [clear] empties the store in place: the binding is kept, the
    object it is bound to has no key left, no other object is touched, and
    clearing twice is clearing once. *)
Theorem clear_empties_in_place (st : State) :
  store (clear st) = store st
  /\ contents (clear st) (store st) = ∅
  /\ Lodash.keys (contents (clear st) (store st)) = []
  /\ (forall l, l ≠ store st -> heap (clear st) !! l = heap st !! l)
  /\ clear (clear st) = clear st.
Proof.
  destruct (clear_spec st) as (Hs & Hc & Hh).
  split; [done|]. split; [done|].
  assert (Hkeys : Lodash.keys (contents (clear st) (store st)) = []).
  { rewrite Hc. unfold Lodash.keys. by rewrite map_to_list_empty. }
  split; [done|]. split; [done|].
  unfold clear at 1. by rewrite Hs, Hkeys.
Qed.





(** X3. When the callback of [load] receives an error, nothing has
    changed: the error comes without a result, the state after the call is
    the state before it, and the error is a failure that the parser
    reported for one of the discovered files. *)
Theorem error_callback_changes_nothing (h : Host) (dir : string) (options : Options)
    (st : State) (e : JsError) (resultTree : option loc) :
  let opts := defaults h options in
  (load h dir options st).1 = Callback (Some e) resultTree ->
  resultTree = None
  /\ (load h dir options st).2 = st
  /\ exists files file,
       find_file h (r_filePattern opts) (rootOf h dir) = inr files
       /\ file ∈ files
       /\ r_fileParser opts file (r_fileEncoding opts) = inl e.
Proof.
  intros opts Hout. exact (load_callback_inv h dir options st (Some e) resultTree Hout).
Qed.

(** The instance of X3 at a directory with a malformed file, loaded over
    the README's configuration. *)
Lemma error_callback_changes_nothing_witness :
  let st := (load (Demo.readme None) "/app/configs" noOptions initial).2 in
  (load Demo.broken "/app/configs" noOptions st).2 = st
  /\ contents st (store st) !! "generic" = Some (objectOf [("debug", VBool true)]).
Proof.
  intros st. split.
  - refine (proj1 (proj2 (error_callback_changes_nothing Demo.broken "/app/configs" noOptions st
                            (ParserError ("YAMLException: cannot parse in " +:+ dquote
                                          +:+ "/app/configs/broken.yaml" +:+ dquote))
                            None _))).
    vm_compute. reflexivity.
  - vm_compute. reflexivity.
Defined.

(** X4. What a successful real load leaves in the store does not depend on
    the state it starts from: from any other state the same call succeeds
    too and leaves the same tree, so no key of an earlier load survives
    unless the new batch sets it. *)
Theorem real_load_forgets_previous_state (h : Host) (dir : string) (options : Options)
    (st1 st2 : State) (r : loc) :
  r_dryRun (defaults h options) = false ->
  (load h dir options st1).1 = Callback None (Some r) ->
  (load h dir options st2).1 = Callback None (Some (store st2))
  /\ contents (load h dir options st2).2 (store st2)
     = contents (load h dir options st1).2 (store st1)
  /\ exists configs, entries h dir options = Next configs
                     /\ contents (load h dir options st2).2 (store st2) = applyBatch configs ∅.
Proof.
  intros Hdry. rewrite !load_entries.
  destruct (entries h dir options) as [configs|e|e]; [|done|done].
  destruct (commit_real _ configs st1 Hdry) as (_ & _ & H3 & _).
  destruct (commit_real _ configs st2 Hdry) as (R1 & _ & R3 & _).
  destruct (commit _ _ st1) as [s1 st1']; destruct (commit _ _ st2) as [s2 st2'].
  cbn [fst snd] in *. subst s2. intros _.
  split; [done|]. split; [by rewrite R3, H3|]. by exists configs.
Qed.

(** The instance of X4 at the README's directory, loaded on the initial
    state and on a state that holds another configuration. *)
Lemma real_load_forgets_previous_state_witness :
  let h := Demo.readme None in
  let other := (load Demo.dashes "/app/configs" noOptions initial).2 in
  contents other (store other) !! "pathWithDashes" ≠ None
  /\ contents (load h "/app/configs" noOptions other).2 (store other)
     = contents (load h "/app/configs" noOptions initial).2 (store initial)
  /\ contents (load h "/app/configs" noOptions other).2 (store other) !! "pathWithDashes" = None.
Proof.
  intros h other.
  destruct (real_load_forgets_previous_state h "/app/configs" noOptions initial other 1%positive)
    as (_ & Hsame & _).
  { reflexivity. }
  { vm_compute. reflexivity. }
  split; [vm_compute; discriminate|]. split; [exact Hsame|].
  rewrite Hsame. vm_compute. reflexivity.
Defined.

Lemma setAt_batch_allocated l configs st :
  is_Some (heap st !! l) ->
  is_Some (heap (foldl (fun st config => setAt l config st) st configs) !! l).
Proof.
  revert st. induction configs as [|c configs IH]; intros st Hsome; [done|].
  cbn [foldl]. apply IH. unfold setAt; cbn [heap]. rewrite lookup_insert_eq. by eexists.
Qed.

(** The object of a dry run is allocated when the task ends. *)
Lemma commit_dry_allocated opts configs st :
  r_dryRun opts = true ->
  is_Some (heap (commit opts configs st).2 !! fresh ({[store st]} ∪ dom (heap st))).
Proof.
  intros Hdry. unfold commit. rewrite Hdry. cbn [newObject fst snd].
  apply setAt_batch_allocated. cbn [heap]. rewrite lookup_insert_eq. by eexists.
Qed.

(** X5. Two dry runs in a row return two different objects that hold the
    same tree, and the second leaves the first one's tree as it was. *)
Theorem dry_runs_return_distinct_equal_trees (h : Host) (dir : string)
    (options : Options) (st : State) (t1 : loc) :
  r_dryRun (defaults h options) = true ->
  (load h dir options st).1 = Callback None (Some t1) ->
  let st1 := (load h dir options st).2 in
  let st2 := (load h dir options st1).2 in
  exists t2,
    (load h dir options st1).1 = Callback None (Some t2)
    /\ t2 ≠ t1 /\ t2 ≠ store st /\ t1 ≠ store st
    /\ contents st2 t2 = contents st1 t1
    /\ heap st2 !! t1 = heap st1 !! t1.
Proof.
  intros Hdry Hout st1 st2. subst st1 st2. revert Hout.
  rewrite (load_entries h dir options st).
  destruct (entries h dir options) as [configs|e|e] eqn:Hentries; [|done|done].
  destruct (commit_dry _ configs st Hdry) as (H1 & H2 & H3 & H4 & H5 & H6).
  destruct (commit _ _ st) as [s st1] eqn:Hst1; cbn [fst snd] in *. subst s. cbn [finish].
  intros [= <-].
  rewrite load_entries, Hentries.
  destruct (commit_dry _ configs st1 Hdry) as (R1 & R2 & R3 & R4 & R5 & R6).
  destruct (commit _ _ st1) as [s st2]; cbn [fst snd] in *. subst s. cbn [finish].
  set (t1 := fresh ({[store st]} ∪ dom (heap st))) in *.
  set (t2 := fresh ({[store st1]} ∪ dom (heap st1))) in *.
  assert (Hne : t2 ≠ t1).
  { intros Heq. pose proof (commit_dry_allocated _ configs st Hdry) as Halloc.
    rewrite Hst1 in Halloc. cbn [snd] in Halloc. fold t1 in Halloc.
    rewrite <- Heq, R3 in Halloc. by destruct Halloc. }
  exists t2. split; [done|]. split; [done|]. split; [congruence|]. split; [done|].
  split; [by rewrite R5, H5|]. apply R6. congruence.
Qed.

(** The instance of X5 at two dry runs of the README's directory. *)
Lemma dry_runs_return_distinct_equal_trees_witness :
  let h := Demo.readme None in
  let options := Demo.withProfile "production" true in
  let st1 := (load h "/app/configs" options initial).2 in
  let st2 := (load h "/app/configs" options st1).2 in
  exists t2,
    (load h "/app/configs" options st1).1 = Callback None (Some t2)
    /\ t2 ≠ 2%positive
    /\ contents st2 t2 = contents st1 2%positive.
Proof.
  intros h options st1 st2.
  destruct (dry_runs_return_distinct_equal_trees h "/app/configs" options initial 2%positive)
    as (t2 & Hout & Hne & _ & _ & Hsame & _).
  { reflexivity. }
  { vm_compute. reflexivity. }
  exists t2. split; [exact Hout|]. split; [exact Hne|exact Hsame].
Defined.

(** ** What a successful load leaves in the tree *)

Lemma mapStep_next_inv {A B} (f : A -> Step B) (l : list A) (bs : list B) :
  mapStep f l = Next bs -> Forall2 (fun a b => f a = Next b) l bs.
Proof.
  revert bs. induction l as [|a l IH]; intros bs; cbn [mapStep].
  - intros [= <-]. constructor.
  - destruct (f a) as [b|e|e] eqn:Hfa; [|done|done].
    destruct (mapStep f l) as [bs'|e|e]; [|done|done].
    intros [= <-]. constructor; [done|]. by apply IH.
Qed.

(** The tree the callback of a successful load receives holds the batch of
    the entries applied to an empty tree, dry run or not. *)
Lemma load_success_tree h dir options st r :
  (load h dir options st).1 = Callback None (Some r) ->
  exists configs, entries h dir options = Next configs
                  /\ contents (load h dir options st).2 r = applyBatch configs ∅.
Proof.
  rewrite load_entries. destruct (entries h dir options) as [configs|e|e]; [|done|done].
  intros Hout. exists configs. split; [done|].
  destruct (r_dryRun (defaults h options)) eqn:Hdry.
  - destruct (commit_dry _ configs st Hdry) as (H1 & _ & _ & _ & H5 & _).
    destruct (commit _ _ _) as [s st']; cbn [fst snd] in *. subst s.
    cbn [finish] in Hout. by injection Hout as <-.
  - destruct (commit_real _ configs st Hdry) as (H1 & _ & H3 & _).
    destruct (commit _ _ _) as [s st']; cbn [fst snd] in *. subst s.
    cbn [finish] in Hout. by injection Hout as <-.
Qed.

(** X6. A successful load has exactly one entry per discovered file, in
    discovery order: every file was parsed to a truthy value, its entry sits
    at the camel-cased dotted path of the file relative to the directory,
    and holds the new plain object [_.merge({}, value[defaultProfile],
    value[profile])]. *)
Theorem successful_load_entries (h : Host) (dir : string) (options : Options)
    (files : list string) (configs : list Config) :
  let opts := defaults h options in
  find_file h (r_filePattern opts) (rootOf h dir) = inr files ->
  entries h dir options = Next configs ->
  length configs = length files
  /\ map path configs = map (fun file => toDotPath h (relative h (rootOf h dir) file) None) files
  /\ Forall2 (fun file config =>
                exists v, r_fileParser opts file (r_fileEncoding opts) = inr v
                          /\ truthy v = true
                          /\ value config
                             = Lodash.merge ∅ [getProp v (r_defaultProfile opts);
                                               getProp v (propName (r_profile opts))])
             files configs
  /\ Forall (fun config => exists props, value config = VObj false props) configs.
Proof.
  intros opts Hfind. unfold entries, listDir. fold (rootOf h dir). fold opts. rewrite Hfind.
  destruct (mapStep (loadFile h (rootOf h dir) opts) files) as [loaded|e|e] eqn:Hloaded;
    [|done|done].
  intros Hsolved.
  apply mapStep_next_inv in Hloaded. apply mapStep_next_inv in Hsolved. clear Hfind.
  assert (Hall : Forall2 (fun file config =>
             path config = toDotPath h (relative h (rootOf h dir) file) None
             /\ exists v, r_fileParser opts file (r_fileEncoding opts) = inr v
                          /\ truthy v = true
                          /\ value config
                             = Lodash.merge ∅ [getProp v (r_defaultProfile opts);
                                               getProp v (propName (r_profile opts))])
            files configs).
  { revert configs Hsolved.
    induction Hloaded as [|file l files loaded Hfile _ IH]; intros configs Hsolved.
    - inversion Hsolved. constructor.
    - inversion Hsolved as [|? config ? configs' Hl Hrest]; subst. constructor; [|by apply IH].
      unfold loadFile in Hfile.
      destruct (r_fileParser opts file (r_fileEncoding opts)) as [e|v]; [done|].
      destruct (truthy v) eqn:Htruthy; injection Hfile as <-; [|done].
      cbn [solve] in Hl. injection Hl as <-.
      split; [done|]. by exists v. }
  split; [symmetry; by eapply Forall2_length|]. split; [|split].
  - clear -Hall. induction Hall as [|file config files configs [Hp _] _ IH]; [done|].
    cbn [map]. by rewrite Hp, IH.
  - eapply Forall2_impl; [exact Hall|]. by intros file config [_ H].
  - clear -Hall. induction Hall as [|file config files configs [_ (v & _ & _ & Hv)] _ IH];
      constructor; [|done].
    rewrite Hv. by eexists.
Qed.

(** The instance of X6 at the README's directory. *)
Lemma successful_load_entries_witness :
  exists configs,
    entries (Demo.readme None) "/app/configs" noOptions = Next configs
    /\ map path configs = ["generic"; "db.mongo"; "movieCatalog"]
    /\ Forall (fun config => exists props, value config = VObj false props) configs.
Proof.
  eexists.
  eassert (Hentries : entries (Demo.readme None) "/app/configs" noOptions = Next _).
  { vm_compute. reflexivity. }
  split; [exact Hentries|].
  edestruct (successful_load_entries (Demo.readme None) "/app/configs" noOptions
               ["/app/configs/generic.yaml"; "/app/configs/db/mongo.yaml";
                "/app/configs/movie-catalog.yaml"])
    as (_ & Hpaths & _ & Hobjects); [reflexivity|exact Hentries|].
  split; [|exact Hobjects]. rewrite Hpaths. vm_compute. reflexivity.
Defined.

Lemma baseSet_step k k2 p v (o : Obj) :
  Lodash.baseSet (k :: k2 :: p) v o =
  let newValue :=
    match default VUndef (o !! k) with
    | VObj objArr objProps => (objArr, objProps)
    | _ => (Lodash.isIndex k2, ∅)
    end in
  <[k := VObj newValue.1 (Lodash.baseSet (k2 :: p) v newValue.2)]> o.
Proof. reflexivity. Qed.

Lemma getPath_step k k2 q (o : Obj) :
  getPath (k :: k2 :: q) o =
  match o !! k with
  | Some (VObj _ props) => getPath (k2 :: q) props
  | _ => None
  end.
Proof. reflexivity. Qed.

Lemma getPath_baseSet_same p v (o : Obj) :
  p ≠ [] -> getPath p (Lodash.baseSet p v o) = Some v.
Proof.
  revert o. induction p as [|k p IH]; intros o Hp; [done|].
  destruct p as [|k2 p].
  - cbn [Lodash.baseSet getPath]. by rewrite lookup_insert_eq.
  - rewrite baseSet_step, getPath_step. cbv zeta. rewrite lookup_insert_eq. by apply IH.
Qed.

Lemma getPath_empty p : getPath p ∅ = None.
Proof. destruct p as [|k [|k2 p]]; cbn [getPath]; by rewrite ?lookup_empty. Qed.

(** An assignment does not change what is read at a disjoint path. *)
Lemma getPath_baseSet_other p q v (o : Obj) :
  disjointPaths p q = true ->
  getPath q (Lodash.baseSet p v o) = getPath q o.
Proof.
  unfold disjointPaths. revert q o. induction p as [|k p IH]; intros q o Hd; [done|].
  destruct q as [|k' q]; [by rewrite andb_false_r in Hd|].
  cbn [isPrefix] in Hd.
  destruct (String.eqb_spec k k') as [<-|Hne].
  - rewrite (String.eqb_refl k) in Hd. cbn [andb] in Hd.
    destruct p as [|k2 p]; [done|]. destruct q as [|k2' q]; [by rewrite andb_false_r in Hd|].
    rewrite baseSet_step, !getPath_step. cbv zeta. rewrite lookup_insert_eq.
    destruct (o !! k) as [x|] eqn:Hk.
    + destruct x as [| |b|z|s|a props]; cbn [default from_option id fst snd];
        try (rewrite (IH (k2' :: q) ∅ Hd); apply getPath_empty).
      by apply IH.
    + cbn [default from_option id fst snd].
      rewrite (IH (k2' :: q) ∅ Hd). apply getPath_empty.
  - assert (Hlookup : forall x, (<[k:=x]> o : Obj) !! k' = o !! k')
      by (intros x; by apply lookup_insert_ne).
    destruct p as [|k2 p]; [|rewrite baseSet_step; cbv zeta];
      cbn [Lodash.baseSet]; destruct q as [|k2' q];
      rewrite ?getPath_step; cbn [getPath]; by rewrite Hlookup.
Qed.

Lemma disjointPaths_sym p q : disjointPaths p q = disjointPaths q p.
Proof. unfold disjointPaths. apply andb_comm. Qed.

Lemma applyBatch_frame configs target q :
  forallb (disjointPaths q) (map segments configs) = true ->
  getPath q (applyBatch configs target) = getPath q target.
Proof.
  unfold applyBatch. revert target. induction configs as [|c configs IH]; intros target; [done|].
  cbn [map forallb foldl]. intros [Hc Hrest]%andb_true_iff.
  rewrite IH by done. unfold Lodash.set. apply getPath_baseSet_other.
  by rewrite disjointPaths_sym.
Qed.

Lemma segments_nonempty config : segments config ≠ [].
Proof. apply split_nonempty. Qed.

Lemma applyBatch_readable configs target config :
  pairwiseDisjoint (map segments configs) = true ->
  config ∈ configs ->
  getPath (segments config) (applyBatch configs target) = Some (value config).
Proof.
  revert target. induction configs as [|c configs IH]; intros target Hpair Hin.
  - by apply elem_of_nil in Hin.
  - cbn [map pairwiseDisjoint] in Hpair. apply andb_true_iff in Hpair as [Hc Hrest].
    apply elem_of_cons in Hin as [->|Hin].
    + change (applyBatch (c :: configs) target)
        with (applyBatch configs (Lodash.set target (path c) (value c))).
      rewrite applyBatch_frame by done.
      apply getPath_baseSet_same, segments_nonempty.
    + by apply IH.
Qed.

(** X7. When the dotted paths of the entries consist of ordinary names and
    are pairwise disjoint (none leads through another), the tree a
    successful load hands to its callback has every entry's value at the
    entry's path: the hierarchy of the directory is the hierarchy of the
    tree. *)
Theorem loaded_entries_readable (h : Host) (dir : string) (options : Options)
    (st : State) (r : loc) (configs : list Config) :
  (load h dir options st).1 = Callback None (Some r) ->
  entries h dir options = Next configs ->
  forallb ordinaryPath (map segments configs) = true ->
  pairwiseDisjoint (map segments configs) = true ->
  forall config, config ∈ configs ->
    getPath (segments config) (contents (load h dir options st).2 r) = Some (value config).
Proof.
  intros Hout Hentries _ Hpair config Hin.
  destruct (load_success_tree h dir options st r Hout) as (configs' & Hentries' & ->).
  rewrite Hentries in Hentries'. injection Hentries' as <-.
  by apply applyBatch_readable.
Qed.

(** The instance of X7 at the README's directory: [store.db.mongo] is the
    resolved value of [db/mongo.yaml]. *)
Lemma loaded_entries_readable_witness :
  let st' := (load (Demo.readme None) "/app/configs" noOptions initial).2 in
  getPath ["db"; "mongo"] (contents st' 1%positive)
  = Some (objectOf [("host", VStr "localhost"); ("port", VNum 27017)]).
Proof.
  intros st'.
  eassert (Hentries : entries (Demo.readme None) "/app/configs" noOptions = Next _).
  { vm_compute. reflexivity. }
  refine (loaded_entries_readable (Demo.readme None) "/app/configs" noOptions initial
            1%positive _ _ Hentries _ _
            {| path := "db.mongo";
               value := objectOf [("host", VStr "localhost"); ("port", VNum 27017)] |} _).
  - vm_compute. reflexivity.
  - vm_compute. reflexivity.
  - vm_compute. reflexivity.
  - apply list_elem_of_In. right. left. vm_compute. reflexivity.
Defined.

Lemma applyBatch_app configs configs' target :
  applyBatch (configs ++ configs')%list target = applyBatch configs' (applyBatch configs target).
Proof. unfold applyBatch. apply foldl_app. Qed.

(** X8. When two files come to the same dotted path, or one path leads
    through another, the later entry in discovery order wins: with paths of
    ordinary names, an entry is readable at its path in the tree of a
    successful load whenever no later entry's path collides with its own,
    whatever the earlier entries are. *)
Theorem later_entry_wins (h : Host) (dir : string) (options : Options)
    (st : State) (r : loc) (before after : list Config) (config : Config) :
  (load h dir options st).1 = Callback None (Some r) ->
  entries h dir options = Next (before ++ config :: after)%list ->
  forallb ordinaryPath (map segments (before ++ config :: after)%list) = true ->
  forallb (disjointPaths (segments config)) (map segments after) = true ->
  getPath (segments config) (contents (load h dir options st).2 r) = Some (value config).
Proof.
  intros Hout Hentries _ Hafter.
  destruct (load_success_tree h dir options st r Hout) as (configs' & Hentries' & ->).
  rewrite Hentries in Hentries'. injection Hentries' as <-.
  rewrite applyBatch_app.
  change (applyBatch (config :: after) (applyBatch before ∅))
    with (applyBatch after (Lodash.set (applyBatch before ∅) (path config) (value config))).
  rewrite applyBatch_frame by done.
  apply getPath_baseSet_same, segments_nonempty.
Qed.

(** The instance of X8 at two files that both come to the path [aB]. *)
Lemma later_entry_wins_witness :
  let st' := (load Demo.collide "/app/configs" noOptions initial).2 in
  map (fun file => toDotPath Demo.collide (relative Demo.collide "/app/configs" file) None)
      ["/app/configs/a-b.yaml"; "/app/configs/a_b.yaml"] = ["aB"; "aB"]
  /\ getPath ["aB"] (contents st' 1%positive) = Some (objectOf [("n", VNum 2)]).
Proof.
  intros st'. split; [vm_compute; reflexivity|].
  refine (later_entry_wins Demo.collide "/app/configs" noOptions initial 1%positive
            [{| path := "aB"; value := objectOf [("n", VNum 1)] |}] []
            {| path := "aB"; value := objectOf [("n", VNum 2)] |} _ _ _ _).
  - vm_compute. reflexivity.
  - vm_compute. reflexivity.
  - vm_compute. reflexivity.
  - vm_compute. reflexivity.
Defined.

Lemma dom_baseSet k p v (o : Obj) :
  dom (Lodash.baseSet (k :: p) v o) = {[k]} ∪ dom o.
Proof.
  destruct p as [|k2 p].
  - cbn [Lodash.baseSet]. apply dom_insert_L.
  - rewrite baseSet_step. cbv zeta. apply dom_insert_L.
Qed.

Lemma dom_applyBatch configs (target : Obj) key :
  key ∈ dom (applyBatch configs target) <->
  key ∈ dom target \/ exists config, config ∈ configs /\ head (segments config) = Some key.
Proof.
  unfold applyBatch. revert target. induction configs as [|c configs IH]; intros target.
  - cbn [foldl]. split; [by left|]. intros [H|(config & Hin & _)]; [done|].
    by apply elem_of_nil in Hin.
  - cbn [foldl]. rewrite IH. unfold Lodash.set.
    pose proof (segments_nonempty c) as Hne. unfold segments in *.
    destruct (Lodash.castPath (path c)) as [|k p] eqn:Hpath; [done|].
    rewrite dom_baseSet, elem_of_union, elem_of_singleton. split.
    + intros [[->|H]|(config & Hin & Hhead)].
      * right. exists c. split; [by left|]. by rewrite Hpath.
      * by left.
      * right. exists config. split; [by right|done].
    + intros [H|(config & Hin & Hhead)]; [by left; right|].
      apply elem_of_cons in Hin as [->|Hin].
      * rewrite Hpath in Hhead. injection Hhead as ->. by left; left.
      * right. by exists config.
Qed.

(** X9. With paths of ordinary names, the top-level keys of the tree a
    successful load hands over are exactly the first segments of the dotted
    paths of its entries: a load leaves no key that does not come from a
    file of this load. *)
Theorem loaded_keys_come_from_entries (h : Host) (dir : string) (options : Options)
    (st : State) (r : loc) (configs : list Config) (key : string) :
  (load h dir options st).1 = Callback None (Some r) ->
  entries h dir options = Next configs ->
  forallb ordinaryPath (map segments configs) = true ->
  is_Some (contents (load h dir options st).2 r !! key) <->
  exists config, config ∈ configs /\ head (segments config) = Some key.
Proof.
  intros Hout Hentries _.
  destruct (load_success_tree h dir options st r Hout) as (configs' & Hentries' & ->).
  rewrite Hentries in Hentries'. injection Hentries' as <-.
  rewrite <- elem_of_dom, dom_applyBatch, dom_empty_L. split.
  - intros [H|H]; [by apply elem_of_empty in H|done].
  - by right.
Qed.

(** The instance of X9 at the README's directory loaded over another
    configuration: [db] is a key, the earlier [pathWithDashes] is not. *)
Lemma loaded_keys_come_from_entries_witness :
  let other := (load Demo.dashes "/app/configs" noOptions initial).2 in
  let st' := (load (Demo.readme None) "/app/configs" noOptions other).2 in
  is_Some (contents other 1%positive !! "pathWithDashes")
  /\ is_Some (contents st' 1%positive !! "db")
  /\ ~ is_Some (contents st' 1%positive !! "pathWithDashes").
Proof.
  intros other st'.
  eassert (Hentries : entries (Demo.readme None) "/app/configs" noOptions = Next _).
  { vm_compute. reflexivity. }
  assert (Hout : (load (Demo.readme None) "/app/configs" noOptions other).1
                 = Callback None (Some 1%positive)).
  { vm_compute. reflexivity. }
  split; [vm_compute; eexists; reflexivity|]. split.
  - apply (loaded_keys_come_from_entries _ _ _ _ _ _ "db" Hout Hentries);
      [vm_compute; reflexivity|].
    eexists. split; [apply list_elem_of_In; right; left; reflexivity|].
    vm_compute. reflexivity.
  - intros Hkey.
    apply (loaded_keys_come_from_entries _ _ _ _ _ _ "pathWithDashes" Hout Hentries) in Hkey;
      [|vm_compute; reflexivity].
    destruct Hkey as (config & Hin & Hhead).
    apply list_elem_of_In in Hin.
    destruct Hin as [<-|[<-|[<-|[]]]]; vm_compute in Hhead; discriminate Hhead.
Defined.

(** ** Files that parse to nothing *)

Lemma mapStep_first_raise {A B} (f : A -> Step B) (l : list A) (e0 : JsError) :
  (forall a, (exists b, f a = Next b) \/ f a = Raise e0) ->
  Exists (fun a => f a = Raise e0) l ->
  mapStep f l = Raise e0.
Proof.
  intros Hcases. induction l as [|a l IH]; intros Hex.
  - by apply Exists_nil in Hex.
  - cbn [mapStep]. destruct (Hcases a) as [[b Hb]|Hr]; [|by rewrite Hr].
    rewrite Hb. apply Exists_cons in Hex as [Hex|Hex]; [congruence|].
    by rewrite IH.
Qed.

(** X10. [loadFile] passes a falsy parsed value on in place of an entry,
    and the third task reads [config.value] off it: when no parser fails
    but some file parses to a falsy value (an empty YAML file parses to
    [undefined]), the third task throws a TypeError, no callback receives a
    result and the state is as it was. *)
Theorem falsy_value_throws (h : Host) (dir : string) (options : Options)
    (st : State) (files : list string) :
  let opts := defaults h options in
  let encoding := r_fileEncoding opts in
  find_file h (r_filePattern opts) (rootOf h dir) = inr files ->
  Forall (fun file => exists v, r_fileParser opts file encoding = inr v) files ->
  Exists (fun file => exists v, r_fileParser opts file encoding = inr v
                                /\ truthy v = false) files ->
  entries h dir options = Raise typeError
  /\ (load h dir options st).2 = st
  /\ forall error r, (load h dir options st).1 ≠ Callback error (Some r).
Proof.
  intros opts encoding Hfind Hall Hex.
  assert (Hentries : entries h dir options = Raise typeError).
  { unfold entries, listDir. fold (rootOf h dir). fold opts. rewrite Hfind.
    set (loadedOf file :=
           match r_fileParser opts file encoding with
           | inr v =>
               if truthy v
               then Entry {| path := toDotPath h (relative h (rootOf h dir) file) None;
                             value := v |}
               else Falsy v
           | inl _ => Falsy VUndef
           end).
    rewrite (mapStep_all_next _ loadedOf).
    - apply mapStep_first_raise.
      + intros [v|c]; [by right|left; by eexists].
      + apply Exists_fmap. eapply Exists_impl; [exact Hex|].
        intros file (v & Hv & Hfalsy). unfold compose, loadedOf. by rewrite Hv, Hfalsy.
    - eapply Forall_impl; [exact Hall|]. intros file (v & Hv).
      unfold loadFile, loadedOf, relative3. fold encoding. by rewrite Hv. }
  split; [done|]. rewrite load_entries, Hentries. by split.
Qed.

(** The instance of X10 at a directory with an empty file, loaded over the
    README's configuration. *)
Lemma falsy_value_throws_witness :
  let st := (load (Demo.readme None) "/app/configs" noOptions initial).2 in
  entries Demo.blank "/app/configs" noOptions = Raise typeError
  /\ (load Demo.blank "/app/configs" noOptions st).2 = st.
Proof.
  intros st.
  destruct (falsy_value_throws Demo.blank "/app/configs" noOptions st
              ["/app/configs/blank.yaml"]) as (Hentries & Hstate & _).
  - reflexivity.
  - apply Forall_cons. split; [eexists; vm_compute; reflexivity|apply Forall_nil_2].
  - apply Exists_cons_hd. exists VUndef. split; vm_compute; reflexivity.
  - split; [exact Hentries|exact Hstate].
Defined.

(** ** More on dotted paths *)

Lemma drop_all s : Str.drop (String.length s) s = "".
Proof. induction s as [|c s IH]; [done|]. apply IH. Qed.

Lemma startsWith_refl s : Str.startsWith s s = true.
Proof. induction s as [|c s IH]; simpl; [done|]. by rewrite Ascii.eqb_refl. Qed.

Lemma removeFirst_at_end ext stem :
  Str.indexOf ext (stem +:+ ext) = Some (String.length stem) ->
  Str.removeFirst ext (stem +:+ ext) = stem.
Proof.
  induction stem as [|c stem IH].
  - intros _. simpl. destruct ext as [|a ext]; [done|].
    cbn [Str.removeFirst]. rewrite startsWith_refl. apply drop_all.
  - change (String c stem +:+ ext) with (String c (stem +:+ ext)).
    cbn [Str.indexOf Str.removeFirst String.length].
    destruct (Str.startsWith ext (String c (stem +:+ ext))); [done|].
    destruct (Str.indexOf ext (stem +:+ ext)) as [i|] eqn:Hi; [|done].
    intros [= ->]. f_equal. by apply IH.
Qed.

(** X11. When the extension of a path occurs nowhere before its end,
    [toDotPath] removes just that extension: the dotted path is made of the
    normalised non-empty names of the path without its extension. *)
Theorem toDotPath_strips_trailing_extension
    (h : Host) (opts : option DotPathOptions) (stem ext : string) :
  let normalizer := default (camelCase h) (opts ≫= dp_pathNormalizer) in
  Path.extname (stem +:+ ext) = ext ->
  Str.indexOf ext (stem +:+ ext) = Some (String.length stem) ->
  toDotPath h (stem +:+ ext) opts
  = Str.join "." (map normalizer
                    (filter (fun n => Is_true (Str.nonEmpty n)) (Str.split Path.sep stem))).
Proof.
  intros normalizer Hext Hindex. unfold toDotPath. fold normalizer.
  by rewrite Hext, removeFirst_at_end.
Qed.

(** The instance of X11 at the paths of the tests. *)
Lemma toDotPath_strips_trailing_extension_witness :
  toDotPath (Demo.readme None) "path-with-dashes/conf1.yaml" None = "pathWithDashes.conf1"
  /\ toDotPath (Demo.readme None) "db/mongo.yaml"
       (Some {| dp_pathNormalizer := Some (fun name => name) |}) = "db.mongo".
Proof.
  split.
  - exact (toDotPath_strips_trailing_extension (Demo.readme None) None
             "path-with-dashes/conf1" ".yaml" eq_refl eq_refl).
  - exact (toDotPath_strips_trailing_extension (Demo.readme None)
             (Some {| dp_pathNormalizer := Some (fun name => name) |})
             "db/mongo" ".yaml" eq_refl eq_refl).
Defined.

Lemma split_pieces_no_separator sep s :
  Forall (fun piece => Str.contains sep piece = false) (Str.split sep s).
Proof.
  induction s as [|c s IH]; cbn [Str.split].
  - by constructor.
  - destruct (Ascii.eqb c sep) eqn:Hc.
    + by constructor.
    + pose proof (split_nonempty sep s) as Hne.
      destruct (Str.split sep s) as [|piece pieces]; [done|].
      apply Forall_cons in IH as [Hpiece Hpieces].
      constructor; [|done]. cbn [Str.contains]. by rewrite Hc.
Qed.

(** X12. Whatever the path, the normalizer is only ever applied to names
    that are not empty and hold no separator: empty names (a leading, a
    trailing or a doubled separator) are dropped before it is called. *)
Theorem toDotPath_names (h : Host) (opts : option DotPathOptions) (filepath : string) :
  let normalizer := default (camelCase h) (opts ≫= dp_pathNormalizer) in
  exists names,
    toDotPath h filepath opts = Str.join "." (map normalizer names)
    /\ Forall (fun name => name ≠ "" /\ Str.contains Path.sep name = false) names.
Proof.
  intros normalizer. eexists. split; [reflexivity|].
  apply Forall_forall. intros name [Hnonempty Hin]%list_elem_of_filter.
  split.
  - intros ->. done.
  - pose proof (split_pieces_no_separator Path.sep
                  (Str.removeFirst (Path.extname filepath) filepath)) as Hall.
    by eapply Forall_forall in Hall.
Qed.

Lemma contains_charAt c s i :
  Str.contains c s = false -> Str.charAt i s ≠ Some c.
Proof.
  unfold Str.charAt. revert i. induction s as [|d s IH]; intros i; cbn [Str.contains].
  - by destruct i.
  - intros [Hd Hs]%orb_false_iff. destruct i as [|i]; cbn [String.get].
    + intros [= ->]. by rewrite Ascii.eqb_refl in Hd.
    + by apply IH.
Qed.

(** Without a dot in the path the scan of [path.extname] never finds the
    start of an extension. *)
Lemma extLoop_no_dot path n s :
  Str.contains "." path = false ->
  Path.startDot s = (-1)%Z ->
  Path.startDot (Path.extLoop path n s) = (-1)%Z.
Proof.
  intros Hdot. revert s. induction n as [|i IH]; intros s Hs; [done|].
  cbn [Path.extLoop].
  pose proof (contains_charAt "." path i Hdot) as Hchar.
  destruct (Str.charAt i path) as [code|] eqn:Hcode; cbn [default from_option id].
  - destruct (Ascii.eqb code "/") eqn:Hslash.
    + destruct (negb (Path.matchedSlash s)); [done|by apply IH].
    + destruct (Ascii.eqb_spec code ".") as [->|_]; [done|].
      apply IH. cbn zeta.
      destruct (Path.endPos s =? -1)%Z; cbn [Path.startDot]; rewrite Hs; done.
  - change (Ascii.eqb "000" "/") with false. change (Ascii.eqb "000" ".") with false.
    cbv iota. apply IH. cbn zeta.
    destruct (Path.endPos s =? -1)%Z; cbn [Path.startDot]; rewrite Hs; done.
Qed.

(** X13. A path without any dot has no extension to remove: [toDotPath]
    normalises each of its non-empty names as it is. *)
Theorem toDotPath_without_dot (h : Host) (opts : option DotPathOptions) (filepath : string) :
  let normalizer := default (camelCase h) (opts ≫= dp_pathNormalizer) in
  Str.contains "." filepath = false ->
  Path.extname filepath = ""
  /\ toDotPath h filepath opts
     = Str.join "." (map normalizer
                       (filter (fun n => Is_true (Str.nonEmpty n))
                          (Str.split Path.sep filepath))).
Proof.
  intros normalizer Hdot.
  assert (Hext : Path.extname filepath = "").
  { unfold Path.extname.
    rewrite (extLoop_no_dot filepath (String.length filepath) Path.extInit Hdot eq_refl).
    done. }
  split; [done|]. unfold toDotPath. fold normalizer. rewrite Hext.
  by destruct filepath.
Qed.

(** The instance of X13 at a file without extension below a directory with
    a doubled separator. *)
Lemma toDotPath_without_dot_witness :
  Path.extname "path-with-dashes//README" = ""
  /\ toDotPath (Demo.readme None) "path-with-dashes//README" None = "pathWithDashes.readme".
Proof.
  destruct (toDotPath_without_dot (Demo.readme None) None "path-with-dashes//README")
    as [Hext Hpath]; [reflexivity|].
  split; [exact Hext|]. rewrite Hpath. reflexivity.
Defined.

(** ** Parser errors *)

Lemma append_inj_r (a b c : string) : a +:+ c = b +:+ c -> a = b.
Proof.
  revert b. induction a as [|x a IH]; intros [|y b] Heq; simpl in Heq.
  - done.
  - apply (f_equal String.length) in Heq. simpl in Heq. rewrite append_length in Heq. lia.
  - apply (f_equal String.length) in Heq. simpl in Heq. rewrite append_length in Heq. lia.
  - injection Heq as -> Heq. f_equal. by apply IH.
Qed.

(** X14. A [ParserError] names its file: its message is the text of the
    underlying failure, then [ in ], then the path in double quotes, so
    the errors that one failure gives for two different files differ. *)
Theorem ParserError_names_file (error : JsError) (file1 file2 : string) :
  file1 ≠ file2 ->
  newParserError error file1 ≠ newParserError error file2
  /\ toString (newParserError error file1)
     = "Error: " +:+ toString error +:+ " in " +:+ dquote +:+ file1 +:+ dquote.
Proof.
  intros Hne. split; [|done].
  unfold newParserError. intros [= Heq]. apply Hne.
  apply String.app_inj in Heq. cbn in Heq. injection Heq as Heq.
  by apply append_inj_r in Heq.
Qed.

(** The instance of X14 at a syntax error reported for two files. *)
Lemma ParserError_names_file_witness :
  newParserError (Failure "SyntaxError: Unexpected token") "/app/configs/a.json"
  ≠ newParserError (Failure "SyntaxError: Unexpected token") "/app/configs/b.json".
Proof.
  apply (ParserError_names_file (Failure "SyntaxError: Unexpected token")
           "/app/configs/a.json" "/app/configs/b.json").
  discriminate.
Defined.

(** ** The order of discovery *)

Lemma baseSet_nodeAt k rest v (o : Obj) :
  Lodash.baseSet (k :: rest) v o = <[k := Lodash.nodeAt rest v (o !! k)]> o.
Proof. by destruct rest. Qed.

(** Two assignments at disjoint paths of plain names commute. *)
Lemma baseSet_commute p q v w (o : Obj) :
  disjointPaths p q = true ->
  plainNames p = true -> plainNames q = true ->
  Lodash.baseSet p v (Lodash.baseSet q w o) = Lodash.baseSet q w (Lodash.baseSet p v o).
Proof.
  unfold disjointPaths, plainNames.
  revert q o. induction p as [|k p IH]; intros q o Hd Hp Hq; [done|].
  destruct q as [|k' q]; [by rewrite andb_false_r in Hd|].
  cbn [tail] in Hp, Hq. cbn [isPrefix] in Hd.
  rewrite !baseSet_nodeAt.
  destruct (String.eqb_spec k k') as [<-|Hne].
  - rewrite (String.eqb_refl k) in Hd. cbn [andb] in Hd.
    rewrite !lookup_insert_eq, !insert_insert_eq. f_equal.
    destruct p as [|k2 p]; [done|]. destruct q as [|k2' q]; [by rewrite andb_false_r in Hd|].
    cbn [forallb] in Hp, Hq.
    apply andb_true_iff in Hp as [Hk2 Hp]. apply andb_true_iff in Hq as [Hk2' Hq].
    apply negb_true_iff in Hk2. apply negb_true_iff in Hk2'.
    cbn [Lodash.nodeAt default from_option id]. rewrite Hk2, Hk2'.
    destruct (o !! k) as [x|]; [destruct x as [| |b|z|s|a props]|];
      cbn [default from_option id fst snd]; f_equal; by apply IH.
  - rewrite !lookup_insert_ne by done. by apply insert_insert_ne.
Qed.

Lemma foldl_foldr_reverse {A B} (f : A -> B -> A) (a : A) (l : list B) :
  foldl f a l = foldr (fun b a => f a b) a (reverse l).
Proof.
  revert a. induction l as [|b l IH]; intros a; [done|].
  cbn [foldl]. by rewrite reverse_cons, foldr_snoc, IH.
Qed.

Lemma pairwiseDisjoint_lookup paths i j p q :
  pairwiseDisjoint paths = true ->
  i ≠ j -> paths !! i = Some p -> paths !! j = Some q ->
  disjointPaths p q = true.
Proof.
  revert i j. induction paths as [|r paths IH]; intros i j Hpair Hij Hi Hj; [done|].
  cbn [pairwiseDisjoint] in Hpair. apply andb_true_iff in Hpair as [Hr Hrest].
  rewrite forallb_forall in Hr.
  destruct i as [|i], j as [|j]; cbn in Hi, Hj; simplify_eq.
  - apply Hr. apply list_elem_of_In. by eapply list_elem_of_lookup_2.
  - rewrite disjointPaths_sym. apply Hr. apply list_elem_of_In.
    by eapply list_elem_of_lookup_2.
  - apply (IH i j); auto.
Qed.

(** X18. The tree does not depend on the order in which the files were
    discovered, when their dotted paths are pairwise disjoint and no name
    after the first is an array index: the fourth task then leaves the
    same state and hands over the same reference for any two orders of the
    entries. *)
Theorem discovery_order_irrelevant (opts : Resolved) (configs configs' : list Config)
    (st : State) :
  configs ≡ₚ configs' ->
  pairwiseDisjoint (map segments configs) = true ->
  forallb plainNames (map segments configs) = true ->
  applyBatch configs ∅ = applyBatch configs' ∅
  /\ commit opts configs st = commit opts configs' st.
Proof.
  intros Hperm Hpair Hplain.
  assert (Hbatch : forall target, applyBatch configs target = applyBatch configs' target).
  { intros target. unfold applyBatch. rewrite !foldl_foldr_reverse.
    apply (foldr_permutation eq).
    - intros c. solve_proper.
    - intros j1 a1 j2 a2 o Hj [H1 L1]%reverse_lookup_Some [H2 L2]%reverse_lookup_Some.
      unfold Lodash.set.
      assert (Hplain' : forall c, c ∈ configs -> plainNames (segments c) = true).
      { intros c Hc. rewrite forallb_forall in Hplain. apply Hplain.
        apply list_elem_of_In, list_elem_of_fmap. by exists c. }
      apply baseSet_commute.
      + apply (pairwiseDisjoint_lookup (map segments configs)
                 (length configs - S j1) (length configs - S j2)); [done|lia|..].
        * change (map segments configs) with (segments <$> configs).
          by rewrite list_lookup_fmap, H1.
        * change (map segments configs) with (segments <$> configs).
          by rewrite list_lookup_fmap, H2.
      + apply Hplain'. by eapply list_elem_of_lookup_2.
      + apply Hplain'. by eapply list_elem_of_lookup_2.
    - by rewrite !reverse_Permutation. }
  split; [apply Hbatch|].
  assert (Hfold : forall l st0,
             foldl (fun st config => setAt l config st) st0 configs
             = foldl (fun st config => setAt l config st) st0 configs').
  { intros l st0.
    assert (Hstate : forall cs st1, cs ≠ [] ->
               foldl (fun st config => setAt l config st) st1 cs
               = {| store := store st1;
                    heap := <[l := applyBatch cs (contents st1 l)]> (heap st1) |}).
    { induction cs as [|c cs IHcs]; intros st1 Hne; [done|].
      cbn [foldl]. destruct cs as [|c2 cs]; [done|].
      rewrite IHcs by done. rewrite contents_setAt.
      unfold setAt; cbn [store heap]. by rewrite insert_insert_eq. }
    destruct configs as [|c cs].
    - apply Permutation_nil_l in Hperm. by subst.
    - assert (configs' ≠ []) by (intros ->; by apply Permutation_nil_r in Hperm).
      rewrite !Hstate by done. by rewrite Hbatch. }
  unfold commit. destruct (r_dryRun opts).
  - cbn [newObject]. by rewrite Hfold.
  - by rewrite !setAt_store_batch, Hfold.
Qed.

(** The instance of X18 at the entries of the README's directory in two
    orders. *)
Lemma discovery_order_irrelevant_witness :
  let generic := {| path := "generic"; value := objectOf [("debug", VBool true)] |} in
  let mongo := {| path := "db.mongo"; value := objectOf [("port", VNum 27017)] |} in
  let redis := {| path := "db.redis"; value := objectOf [("port", VNum 6379)] |} in
  applyBatch [generic; mongo; redis] ∅ = applyBatch [redis; generic; mongo] ∅.
Proof.
  intros generic mongo redis.
  refine (proj1 (discovery_order_irrelevant (defaults (Demo.readme None) noOptions)
                   [generic; mongo; redis] [redis; generic; mongo] initial _ _ _)).
  - change [redis; generic; mongo] with ([redis] ++ [generic; mongo])%list.
    change [generic; mongo; redis] with ([generic; mongo] ++ [redis])%list.
    apply Permutation_app_comm.
  - vm_compute. reflexivity.
  - vm_compute. reflexivity.
Defined.

(** With an array index among the names the order shows: whichever file
    comes first decides whether [conf] is created as an array or as a plain
    object. *)
Example discovery_order_with_index :
  let first := {| path := "conf.0"; value := VNum 1 |} in
  let second := {| path := "conf.main"; value := VNum 2 |} in
  pairwiseDisjoint (map segments [first; second]) = true
  /\ applyBatch [first; second] ∅ ≠ applyBatch [second; first] ∅.
Proof. vm_compute. split; [reflexivity|discriminate]. Qed.

(** ** The earlier module *)

Lemma earlier_load_entries h loadedEnv dir options st :
  Earlier.load h loadedEnv dir options st =
  match Earlier.entries h loadedEnv dir options with
  | Next configs =>
      (Callback None None,
       foldl (fun st config => setAt (store st) config st) (clear st) configs)
  | Abort e => (Callback (Some e) None, st)
  | Raise e => (Uncaught e, st)
  end.
Proof.
  unfold Earlier.load, Earlier.entries, bind, lift.
  destruct (Earlier.findFiles _ _); [|done|done].
  destruct (Earlier.parseFiles _ _ _ _); [|done|done].
  destruct (mapStep (Earlier.solve _) _); done.
Qed.


Lemma earlier_parseFiles_mapStep h dir opts files :
  Earlier.parseFiles h dir opts files = mapStep (Earlier.parse h dir opts) files.
Proof. by destruct files. Qed.



(** X16. In the earlier module a failure to read or to parse a file reaches
    the callback as it is, with no result and the state unchanged: nothing
    wraps it, and for a file that could be read it is the very failure of
    the parser on the file's text. *)
Theorem earlier_failure_unwrapped (h : Host) (loadedEnv : option string) (dir : string)
    (options : Earlier.Options) (st : State) (files : list string) :
  let opts := Earlier.defaults h loadedEnv options in
  Earlier.r_listdir opts (Earlier.r_pattern opts) (resolve h (dirname h) dir) = inr files ->
  Exists (fun file => exists e, Earlier.parseFile opts file = Abort e) files ->
  exists file e,
    file ∈ files
    /\ Earlier.parseFile opts file = Abort e
    /\ Earlier.load h loadedEnv dir options st = (Callback (Some e) None, st)
    /\ (forall data, Earlier.r_readfile opts file (Earlier.r_encoding opts) = inr data ->
         Earlier.r_parser opts data = inl e).
Proof.
  intros opts Hfind Hex.
  destruct (mapStep_first_abort (Earlier.parse h (resolve h (dirname h) dir) opts) files)
    as (file & e & Hin & Hfile & Hmap).
  { intros a e. unfold Earlier.parse, Earlier.parseFile.
    destruct (Earlier.r_readfile opts a _); [done|]. by destruct (Earlier.r_parser opts _). }
  { eapply Exists_impl; [exact Hex|]. intros file [e He]. exists e.
    unfold Earlier.parse. by rewrite He. }
  assert (Hparse : Earlier.parseFile opts file = Abort e).
  { unfold Earlier.parse in Hfile. destruct (Earlier.parseFile opts file); congruence. }
  exists file, e. split; [done|]. split; [done|]. split.
  - rewrite earlier_load_entries. unfold Earlier.entries, Earlier.findFiles. fold opts.
    by rewrite Hfind, earlier_parseFiles_mapStep, Hmap.
  - intros data Hread. unfold Earlier.parseFile in Hparse. rewrite Hread in Hparse.
    destruct (Earlier.r_parser opts data); by simplify_eq.
Qed.

(** The instance of X16 at a directory whose second file is malformed. *)
Lemma earlier_failure_unwrapped_witness :
  Earlier.load (Demo.resolving Demo.broken) None "/app/configs" Earlier.noOptions initial
  = (Callback (Some (Failure "YAMLException: cannot parse")) None, initial).
Proof.
  destruct (earlier_failure_unwrapped (Demo.resolving Demo.broken) None "/app/configs"
              Earlier.noOptions initial
              ["/app/configs/main.yaml"; "/app/configs/broken.yaml"])
    as (file & e & Hin & He & Hload & _).
  { vm_compute. reflexivity. }
  { apply Exists_cons_tl, Exists_cons_hd. eexists. vm_compute. reflexivity. }
  rewrite Hload. f_equal. f_equal. f_equal.
  apply list_elem_of_In in Hin. destruct Hin as [<-|[<-|[]]].
  - vm_compute in He. discriminate He.
  - vm_compute in He. by injection He as <-.
Defined.

Lemma toDotPath_fixed_names h filepath :
  Forall (fun name => camelCase h name = name) (namesOf filepath) ->
  toDotPath h filepath None = Str.join "." (namesOf filepath).
Proof.
  intros Hfixed. unfold toDotPath. fold (namesOf filepath). cbn [mbind option_bind default].
  f_equal. induction Hfixed as [|name names Hname _ IH]; [done|].
  cbn [map]. by rewrite Hname, IH.
Qed.

(** X17. The earlier and the current [load] agree where they can: with the
    default YAML parser, on a directory that both resolve alike, with the
    environment's profile as it was when the earlier module was loaded,
    when every file parses to a truthy value and camel-casing leaves every
    name of every relative path as it is, both pass the same entries to
    their last task and leave the same state; a callback invoked without
    an error receives the store from the current one, nothing from the
    earlier one.  The current [pathNormalizer] option plays no part. *)
Theorem earlier_and_current_load_agree (h : Host) (loadedEnv : option string)
    (dir : string) (options : Options) (st : State) (files : list string) :
  let opts := defaults h options in
  let earlier :=
    {| Earlier.pattern := filePattern options; Earlier.encoding := fileEncoding options;
       Earlier.parser := None; Earlier.defenv := defaultProfile options;
       Earlier.listdir := None; Earlier.readfile := None;
       Earlier.env := profile options |} in
  fileParser options = None ->
  r_dryRun opts = false ->
  loadedEnv = NODE_ENV h ->
  resolve h (dirname h) dir = rootOf h dir ->
  find_file h (r_filePattern opts) (rootOf h dir) = inr files ->
  Forall (fun file =>
            (exists data v, readFile h file (r_fileEncoding opts) = inr data
                            /\ yaml_load h data = inr v /\ truthy v = true)
            /\ Forall (fun name => camelCase h name = name)
                      (namesOf (relative h (rootOf h dir) file))) files ->
  Earlier.entries h loadedEnv dir earlier = entries h dir options
  /\ (Earlier.load h loadedEnv dir earlier st).2 = (load h dir options st).2
  /\ (forall resultTree,
        (load h dir options st).1 = Callback None resultTree ->
        resultTree = Some (store st))
  /\ (forall resultTree,
        (Earlier.load h loadedEnv dir earlier st).1 = Callback None resultTree ->
        resultTree = None).
Proof.
  intros opts earlier Hparser Hdry -> Hresolve Hfind Hall.
  set (valueOf file := match parseYAML h file (r_fileEncoding opts) with
                       | inr v => v
                       | inl _ => VUndef
                       end).
  set (entryOf file := {| path := toDotPath h (relative h (rootOf h dir) file) None;
                          value := valueOf file |}).
  assert (Hyaml : r_fileParser opts = parseYAML h).
  { unfold opts, defaults; cbn [r_fileParser]. by rewrite Hparser. }
  assert (Hcurrent : entries h dir options = Next (map (fun file => solveEntry opts (entryOf file)) files)).
  { unfold entries, listDir. fold (rootOf h dir). fold opts. rewrite Hfind.
    rewrite (mapStep_all_next _ (fun file => Entry (entryOf file))).
    - rewrite (mapStep_all_next _ (fun c => match c with
                                            | Entry c => solveEntry opts c
                                            | Falsy _ => entryOf ""
                                            end)).
      + by rewrite map_map.
      + apply Forall_map. by apply Forall_true.
    - eapply Forall_impl; [exact Hall|]. intros file [(data & v & Hread & Hload & Htruthy) _].
      unfold loadFile, entryOf, valueOf, relative3. rewrite Hyaml.
      unfold parseYAML. by rewrite Hread, Hload, Htruthy. }
  assert (Hearlier : Earlier.entries h (NODE_ENV h) dir earlier
                     = Next (map (fun file => solveEntry opts (entryOf file)) files)).
  { unfold Earlier.entries, Earlier.findFiles. rewrite Hresolve.
    change (Earlier.r_listdir (Earlier.defaults h (NODE_ENV h) earlier)) with (find_file h).
    change (Earlier.r_pattern (Earlier.defaults h (NODE_ENV h) earlier))
      with (r_filePattern opts).
    rewrite Hfind, earlier_parseFiles_mapStep.
    rewrite (mapStep_all_next _ entryOf).
    - rewrite (mapStep_all_next _ (solveEntry opts)); [by rewrite map_map|].
      apply Forall_map. eapply Forall_impl; [exact Hall|].
      intros file [(data & v & Hread & Hload & Htruthy) _]. cbn beta.
      unfold Earlier.solve, entryOf, valueOf, parseYAML; cbn [value path].
      rewrite Hread, Hload. by destruct v.
    - eapply Forall_impl; [exact Hall|].
      intros file [(data & v & Hread & Hload & Htruthy) Hfixed].
      unfold Earlier.parse, Earlier.parseFile, Earlier.parsePath, entryOf, valueOf, parseYAML.
      change (Earlier.r_readfile (Earlier.defaults h (NODE_ENV h) earlier)) with (readFile h).
      change (Earlier.r_encoding (Earlier.defaults h (NODE_ENV h) earlier))
        with (r_fileEncoding opts).
      change (Earlier.r_parser (Earlier.defaults h (NODE_ENV h) earlier))
        with (Earlier.parsers_yaml h).
      unfold Earlier.parsers_yaml. rewrite Hread, Hload.
      by rewrite (toDotPath_fixed_names h _ Hfixed). }
  split; [by rewrite Hearlier, Hcurrent|].
  rewrite earlier_load_entries, load_entries, Hearlier, Hcurrent.
  unfold commit. fold opts. rewrite Hdry. cbn [fst snd finish].
  destruct (clear_spec st) as (Hs & _). rewrite Hs.
  split; [done|]. split; intros resultTree [= <-]; done.
Qed.

(** The instance of X17 at a directory with [generic.yaml] and
    [db/mongo.yaml], loaded for the profile [production] with a
    [pathNormalizer] given. *)
Lemma earlier_and_current_load_agree_witness :
  let options := Demo.withNormalizer (fun name => name +:+ "!") in
  let loadedEnv := Some "production" in
  (Earlier.load Demo.plain loadedEnv "/app/configs" Earlier.noOptions initial).2
  = (load Demo.plain "/app/configs" options initial).2
  /\ getPath ["db"; "mongo"]
       (contents (Earlier.load Demo.plain loadedEnv "/app/configs" Earlier.noOptions initial).2
          1%positive)
     = Some (objectOf [("host", VStr "12.12.12.12"); ("port", VNum 27017)]).
Proof.
  intros options loadedEnv.
  destruct (earlier_and_current_load_agree Demo.plain loadedEnv "/app/configs" options initial
              ["/app/configs/generic.yaml"; "/app/configs/db/mongo.yaml"])
    as (_ & Hsame & _).
  - reflexivity.
  - reflexivity.
  - reflexivity.
  - reflexivity.
  - vm_compute. reflexivity.
  - repeat (apply Forall_cons; split;
            [split; [eexists _, _; repeat split; vm_compute; reflexivity
                    |vm_compute; repeat constructor]|]).
    apply Forall_nil_2.
  - split; [exact Hsame|]. vm_compute. reflexivity.
Defined.

(** ** Read failures *)

(** X19. With a built-in parser a file that cannot be read fails with the
    read failure itself, never with a [ParserError]: when no file that can
    be read fails to parse and some file cannot be read, the callback
    receives the read failure of one of the files as it is, with no result
    and the state unchanged. *)
Theorem load_read_failure_unwrapped (h : Host) (dir : string) (options : Options)
    (st : State) (files : list string) (decode : string -> JsError + JsVal) :
  let opts := defaults h options in
  let encoding := r_fileEncoding opts in
  (r_fileParser opts = parseYAML h /\ decode = yaml_load h)
  \/ (r_fileParser opts = parseJSON h /\ decode = JSON_parse h) ->
  find_file h (r_filePattern opts) (rootOf h dir) = inr files ->
  Forall (fun file => forall data, readFile h file encoding = inr data ->
                                   exists v, decode data = inr v) files ->
  Exists (fun file => exists err, readFile h file encoding = inl err) files ->
  exists file err,
    file ∈ files
    /\ readFile h file encoding = inl err
    /\ load h dir options st = (Callback (Some err) None, st).
Proof.
  intros opts encoding Hbuiltin Hfind Hdecodes Hunreadable.
  assert (Hparser : forall file,
             r_fileParser opts file encoding =
             match readFile h file encoding with
             | inl err => inl err
             | inr data => match decode data with
                           | inr v => inr v
                           | inl err => inl (newParserError err file)
                           end
             end).
  { intros file. by destruct Hbuiltin as [[-> ->]|[-> ->]]. }
  destruct (load_abort h dir options st files Hfind) as (file & e & Hin & He & Hload).
  { eapply Exists_impl; [exact Hunreadable|]. intros file [err Herr]. exists err.
    fold opts encoding. by rewrite Hparser, Herr. }
  fold opts encoding in He. rewrite Hparser in He.
  exists file, e. split; [done|].
  destruct (readFile h file encoding) as [err|data] eqn:Hread.
  - injection He as <-. by split.
  - rewrite Forall_forall in Hdecodes.
    destruct (Hdecodes file Hin data Hread) as [v Hv]. by rewrite Hv in He.
Qed.

(** The instance of X19 at a search that reports a file which is gone
    when it is read. *)
Lemma load_read_failure_unwrapped_witness :
  load Demo.vanished "/app/configs" noOptions initial
  = (Callback (Some (Failure
       "Error: ENOENT: no such file or directory, open /app/configs/gone.yaml")) None,
     initial).
Proof.
  destruct (load_read_failure_unwrapped Demo.vanished "/app/configs" noOptions initial
              ["/app/configs/generic.yaml"; "/app/configs/gone.yaml"] (yaml_load Demo.vanished))
    as (file & err & Hin & Hread & Hload).
  - left. split; reflexivity.
  - reflexivity.
  - repeat (apply Forall_cons; split;
            [intros data Hdata; vm_compute in Hdata; simplify_eq; eexists;
             vm_compute; reflexivity|]).
    apply Forall_nil_2.
  - apply Exists_cons_tl, Exists_cons_hd. eexists. vm_compute. reflexivity.
  - rewrite Hload. f_equal. f_equal. f_equal.
    apply list_elem_of_In in Hin. destruct Hin as [<-|[<-|[]]].
    + vm_compute in Hread. discriminate Hread.
    + vm_compute in Hread. by injection Hread as <-.
Defined.

(** ** The models on concrete inputs *)

(** [path.extname] on the cases Node documents. *)
Example extname_cases :
  Path.extname "db/mongo.yaml" = ".yaml"
  /\ Path.extname "a/.bashrc" = ""
  /\ Path.extname ".." = ""
  /\ Path.extname "..." = "."
  /\ Path.extname "a.b/" = ".b"
  /\ Path.extname "index." = "."
  /\ Path.extname "index" = "".
Proof. repeat split; reflexivity. Qed.

(** [split] keeps empty pieces; [replace] with a string removes one
    occurrence. *)
Example split_and_replace_cases :
  Str.split "/" "a//b/" = ["a"; ""; "b"; ""]
  /\ Str.split "/" "" = [""]
  /\ Str.removeFirst ".yaml" "db.yaml/x.yaml" = "db/x.yaml"
  /\ Str.removeFirst "" "abc" = "abc".
Proof. repeat split; reflexivity. Qed.

(** [_.camelCase] on the names of the test directories. *)
Example camelCase_cases :
  Lodash.camelCase "path-with-dashes" = "pathWithDashes"
  /\ Lodash.camelCase "path_with_underscores" = "pathWithUnderscores"
  /\ Lodash.camelCase "conf1" = "conf1"
  /\ Lodash.camelCase "x.yaml" = "xYaml"
  /\ Lodash.camelCase "XMLHttp" = "xmlHttp"
  /\ Lodash.camelCase "fooBar" = "fooBar"
  /\ Lodash.camelCase "--" = "".
Proof. repeat split; reflexivity. Qed.

(** The dotted paths of the tests. *)
Example toDotPath_cases :
  toDotPath (Demo.readme None) "db/mongo.yaml" None = "db.mongo"
  /\ toDotPath (Demo.readme None) "path-with-dashes/conf1.yaml" None = "pathWithDashes.conf1"
  /\ toDotPath (Demo.readme None) "conf1/conf11.yaml" None = "conf1.conf11".
Proof. repeat split; reflexivity. Qed.

(** [_.merge] merges arrays index by index and lets a leaf replace an
    object. *)
Example merge_cases :
  Lodash.merge ∅ [objectOf [("a", arrayOf [VNum 1; VNum 2; VNum 3])];
                  objectOf [("a", arrayOf [VNum 9])]]
    = objectOf [("a", arrayOf [VNum 9; VNum 2; VNum 3])]
  /\ Lodash.merge ∅ [objectOf [("a", objectOf [("x", VNum 1)])];
                     objectOf [("a", VNull)]]
    = objectOf [("a", VNull)]
  /\ Lodash.merge ∅ [VStr "ab"] = objectOf [("0", VStr "a"); ("1", VStr "b")].
Proof. vm_compute. repeat split; reflexivity. Qed.

(** [_.set] creates the levels of a path and an array for an index. *)
Example set_cases :
  Lodash.set ∅ "db.mongo" (VNum 1) = {[ "db" := objectOf [("mongo", VNum 1)] ]}
  /\ Lodash.set ∅ "conf.0" (VNum 1) = {[ "conf" := arrayOf [VNum 1] ]}
  /\ Lodash.set {[ "db" := VNum 7 ]} "db.mongo" (VNum 1)
     = {[ "db" := objectOf [("mongo", VNum 1)] ]}.
Proof. vm_compute. repeat split; reflexivity. Qed.

(** The README's directory, loaded without a profile. *)
Example readme_default :
  let '(out, st) := load (Demo.readme None) "/app/configs" noOptions initial in
  out = Callback None (Some 1%positive) /\
  heap st !! 1%positive =
    Some (<["generic" := objectOf [("debug", VBool true)]]>
         (<["db" := objectOf [("mongo", objectOf [("host", VStr "localhost"); ("port", VNum 27017)])]]>
         (<["movieCatalog" := objectOf [("cache", VNum 0)]]> ∅))).
Proof. vm_compute. split; reflexivity. Qed.
